(** * NovelSearch: the award-novel collector, merger and annotator

    A shallow embedding of [src/NovelSearch/cli.py].  The HTTP fetch and the
    HTML parser are outside the program: a page enters the model as the
    tables, rows, cell texts and [<i>] texts that BeautifulSoup hands to the
    code.  Everything the program itself computes on them (column detection,
    the row loop with its carried year, the merge by key, the sort, the
    prompt loop) is embedded as written. *)

From Stdlib Require Import ZArith List String Ascii Bool Lia Sorted.
From stdpp Require Import base list strings.

Local Open Scope string_scope.
Local Open Scope Z_scope.

(** ** Data model *)

(** The scalar values [json.load] can put in a field. *)
Inductive value : Type :=
  | VNull
  | VBool (b : bool)
  | VNum (n : Z)
  | VStr (s : string).

(** Python truthiness, as used by [not novel["pov"]] and [if novel["read"]]. *)
Definition truthy (v : value) : bool :=
  match v with
  | VNull => false
  | VBool b => b
  | VNum n => negb (n =? 0)
  | VStr s => negb (String.eqb s "")
  end.

(** [v is not None]. *)
Definition is_not_none (v : value) : bool :=
  match v with
  | VNull => false
  | _ => true
  end.

(** One entry of [award_novels.json]: the dict with keys
    ["title"], ["award"], ["year"], ["pov"], ["read"]. *)
Record novel : Type := mkNovel {
  title : string;
  award : string;
  year : Z;
  pov : value;
  read : value
}.

Definition set_pov (n : novel) (v : value) : novel :=
  {| title := title n; award := award n; year := year n; pov := v; read := read n |}.

Definition set_award (n : novel) (a : string) : novel :=
  {| title := title n; award := a; year := year n; pov := pov n; read := read n |}.

Definition set_read (n : novel) (v : value) : novel :=
  {| title := title n; award := award n; year := year n; pov := pov n; read := v |}.

(** The dictionary key [(novel["title"], novel["year"])]. *)
Definition key : Type := string * Z.

Definition key_of (n : novel) : key := (title n, year n).

Definition key_eqb (a b : key) : bool :=
  String.eqb (fst a) (fst b) && (snd a =? snd b).

(** ** Exceptions *)

Inductive exn : Type :=
  | HTTPError
  | IndexError
  | EOFError.

Inductive outcome (A : Type) : Type :=
  | Ok (a : A)
  | Raise (e : exn).

Arguments Ok {A} a.
Arguments Raise {A} e.

(** The exception monad, with stdpp's [x ← m; k] notation. *)
#[global] Instance outcome_ret : MRet outcome := fun A a => Ok a.

#[global] Instance outcome_bind : MBind outcome := fun A B k m =>
  match m with
  | Ok a => k a
  | Raise e => Raise e
  end.

(** A [for] loop whose body may raise: state [s] threaded through [l]. *)
Fixpoint for_each {S A : Type} (body : S -> A -> outcome S) (s : S) (l : list A)
  : outcome S :=
  match l with
  | [] => Ok s
  | x :: l' => s' ← body s x; for_each body s' l'
  end.

(** ** Sorting

    [list.sort] and [sorted] are stable; a stable sort is determined by its
    order, so the insertion sort below computes the same list. *)

Fixpoint insert_sorted {A : Type} (le : A -> A -> bool) (x : A) (l : list A) : list A :=
  match l with
  | [] => [x]
  | y :: l' => if le x y then x :: y :: l' else y :: insert_sorted le x l'
  end.

Fixpoint stable_sort {A : Type} (le : A -> A -> bool) (l : list A) : list A :=
  match l with
  | [] => []
  | x :: l' => insert_sorted le x (stable_sort le l')
  end.

(** [sorted(l)] on strings: code-point order, which on UTF-8 bytes is
    [String.leb]. *)
Definition sorted (l : list string) : list string := stable_sort String.leb l.

(** [sep.join(l)]. *)
Definition join (sep : string) (l : list string) : string := String.concat sep l.

(** Tuple order on [(x["year"], x["title"])]. *)
Definition year_title_leb (a b : novel) : bool :=
  (year a <? year b) || ((year a =? year b) && String.leb (title a) (title b)).

Definition year_title_le (a b : novel) : Prop :=
  year a < year b \/ (year a = year b /\ String.leb (title a) (title b) = true).

(** ** Dictionaries

    A Python dict keeps insertion order, and assigning to a key already
    present keeps that key's position. *)

Definition dict : Type := list (key * novel).

Fixpoint dict_get (k : key) (d : dict) : option novel :=
  match d with
  | [] => None
  | (k', v) :: d' => if key_eqb k k' then Some v else dict_get k d'
  end.

Fixpoint dict_set (k : key) (v : novel) (d : dict) : dict :=
  match d with
  | [] => [(k, v)]
  | (k', v') :: d' =>
      if key_eqb k k' then (k', v) :: d' else (k', v') :: dict_set k v d'
  end.

Definition dict_values (d : dict) : list novel := map snd d.

Definition dict_keys (d : dict) : list key := map fst d.

(** ** The JSON file *)

(** [None]: the file does not exist. *)
Definition file : Type := option (list novel).

Definition load_novels_from_json (f : file) : list novel :=
  match f with
  | Some l => l
  | None => []
  end.

Definition save_novels_to_json (novels : list novel) : file := Some novels.

(** ** The merger (command [scrape], after the two pages are collected) *)

(** [existing_map = {}; for item in existing_data: existing_map[key] = item] *)
Definition index_existing (existing_data : list novel) : dict :=
  fold_left (fun m item => dict_set (key_of item) item m) existing_data [].

(** Body of the loop [for item in combined_new]. *)
Definition merge_item (existing_map : dict) (item : novel) : dict :=
  let k := key_of item in
  match dict_get k existing_map with
  | None => dict_set k item existing_map
  | Some old =>
      let item1 :=
        if is_not_none (pov old) then set_pov item (pov old) else item in
      let item2 :=
        if negb (String.eqb (award item1) (award old))
        then set_award item1 (join "|" (sorted [award item1; award old]))
        else item1 in
      dict_set k item2 existing_map
  end.

Definition year_filter (after : Z) (l : list novel) : list novel :=
  List.filter (fun n => after <=? year n) l.

(** Lines 182-218: the list handed to [save_novels_to_json]. *)
Definition scrape_merge (after : Z) (hugo_data nebula_data : list novel)
    (existing_data : list novel) : list novel :=
  let combined_new := year_filter after (hugo_data ++ nebula_data)%list in
  let existing_data := year_filter after existing_data in
  let existing_map := index_existing existing_data in
  let existing_map := fold_left merge_item combined_new existing_map in
  let merged_data := dict_values existing_map in
  stable_sort year_title_leb merged_data.

(** The dictionary the merge ends with. *)
Definition merged_map (after : Z) (hugo_data nebula_data existing_data : list novel)
    : dict :=
  fold_left merge_item (year_filter after (hugo_data ++ nebula_data)%list)
    (index_existing (year_filter after existing_data)).

(** A dict holds each key once, and here every entry sits under its own
    [(title, year)]. *)
Definition dict_ok (d : dict) : Prop :=
  NoDup (dict_keys d) /\ Forall (fun kv => fst kv = key_of (snd kv)) d.

(** [merge_award_entries], lines 142-156: one step of its loop.  The first
    entry seen for a key stays in the map and is updated. *)
Definition merge_award_entry (novel_map : dict) (n : novel) : dict :=
  let k := key_of n in
  match dict_get k novel_map with
  | None => dict_set k n novel_map
  | Some existing =>
      let existing1 :=
        if negb (String.eqb (award existing) (award n))
        then set_award existing (join "|" (sorted [award existing; award n]))
        else existing in
      let existing2 :=
        if is_not_none (pov n) then set_pov existing1 (pov n) else existing1 in
      dict_set k existing2 novel_map
  end.

(** Lines 141-156: the dictionary [novel_map] when the loop of
    [merge_award_entries] ends.  Its values are the first records given for
    each key, updated in place.  What the function does with the map after
    the loop is not modelled. *)
Definition merge_award_map (novels : list novel) : dict :=
  fold_left merge_award_entry novels [].

(** ** Python's string builtins

    [str.lower], [str.strip], [str.split()] and [int] belong to Python, not
    to the program.  The development is parametric in them: every theorem
    holds whatever they compute.  [py_int] answers [None] where [int] raises
    [ValueError]. *)
Class PyStr : Type := {
  str_lower : string -> string;
  str_strip : string -> string;
  str_split : string -> list string;
  py_int : string -> option Z
}.

(** [needle in hay] on strings. *)
Fixpoint contains (needle hay : string) : bool :=
  String.prefix needle hay ||
  match hay with
  | EmptyString => false
  | String _ hay' => contains needle hay'
  end.

(** [x in l] on a list of strings. *)
Definition in_list (x : string) (l : list string) : bool :=
  existsb (String.eqb x) l.

(** [if s:] on a string. *)
Definition nonempty (s : string) : bool := negb (String.eqb s "").

(** ** The page as the parser delivers it *)

(** A [<tr>]: the stripped text of each cell of [row.find_all(["th","td"])]
    and of each tag of [row.find_all("i")]. *)
Record row : Type := mkRow {
  cells : list string;
  i_tags : list string
}.

(** A [<table class="wikitable">]: its [<tr>] elements in document order. *)
Definition table : Type := list row.

(** What [requests.get] and [raise_for_status] leave: a failure, or the
    tables of the page. *)
Inductive response : Type :=
  | HttpFailure
  | Page (tables : list table).

(** ** The collector *)

Section Collector.
Context `{PyStr}.

Definition parse_int (s : string) : Z :=
  match py_int s with
  | Some n => n
  | None => 0
  end.

(** The dict literal appended at lines 125-131. *)
Definition new_entry (award_name : string) (current_year : Z) (t : string) : novel :=
  {| title := t; award := award_name; year := current_year;
     pov := VNull; read := VBool false |}.

(** Lines 92-96: the first header cell naming a year, but not "awarded". *)
Fixpoint find_year_col (i : nat) (header_cells : list string) : option nat :=
  match header_cells with
  | [] => None
  | cell :: rest =>
      let col_title := str_lower cell in
      if contains "year" col_title && negb (contains "awarded" col_title)
      then Some i
      else find_year_col (S i) rest
  end.

(** Lines 121-131: the loop over the [<i>] tags of one row. *)
Definition collect_titles (award_name : string) (current_year : Z)
    (award_novels : list novel) (tags : list string) : list novel :=
  fold_left
    (fun acc t =>
       if nonempty t
       then (acc ++ [new_entry award_name current_year t])%list
       else acc)
    tags award_novels.

(** Lines 117-131. *)
Definition titles_of_row (award_name : string) (current_year : Z)
    (award_novels : list novel) (r : row) : list novel :=
  if current_year =? 0 then award_novels
  else collect_titles award_name current_year award_novels (i_tags r).

(** Lines 105-131: the body of [for row in rows[1:]], on the loop state
    [(current_year, award_novels)]. *)
Definition scrape_row (year_col_index : nat) (award_name : string)
    (st : Z * list novel) (r : row) : outcome (Z * list novel) :=
  let '(current_year, award_novels) := st in
  match cells r !! year_col_index with
  | Some year_cell =>
      if contains "retro" (str_lower year_cell)
      then Ok (current_year, award_novels)
      else
        match str_split year_cell with
        | [] => Raise IndexError
        | w :: _ =>
            let new_year := parse_int w in
            let current_year :=
              if 0 <? new_year then new_year else current_year in
            Ok (current_year,
                titles_of_row award_name current_year award_novels r)
        end
  | None =>
      Ok (current_year, titles_of_row award_name current_year award_novels r)
  end.

(** Lines 102-131. *)
Definition scrape_rows (year_col_index : nat) (award_name : string)
    (award_novels : list novel) (body : list row) : outcome (list novel) :=
  st ← for_each (scrape_row year_col_index award_name) (0, award_novels) body;
  Ok (snd st).

(** Lines 77-131: the body of [for table in tables]. *)
Definition scrape_table (award_name : string) (award_novels : list novel)
    (rows : table) : outcome (list novel) :=
  match rows with
  | [] => Ok award_novels
  | header :: body =>
      let header_cells := cells header in
      let header_texts := map str_lower header_cells in
      if in_list "year" header_texts && in_list "year awarded" header_texts
      then Ok award_novels
      else
        match find_year_col 0 header_cells with
        | None => Ok award_novels
        | Some year_col_index =>
            scrape_rows year_col_index award_name award_novels body
        end
  end.

Definition scrape_award_novels (resp : response) (award_name : string)
    : outcome (list novel) :=
  match resp with
  | HttpFailure => Raise HTTPError
  | Page tables => for_each (scrape_table award_name) [] tables
  end.

(** The command [scrape]: the two pages, then the merge into the file. *)
Definition scrape (after : Z) (hugo_resp nebula_resp : response) (f : file)
    : outcome file :=
  hugo_data ← scrape_award_novels hugo_resp "Hugo";
  nebula_data ← scrape_award_novels nebula_resp "Nebula";
  Ok (save_novels_to_json
        (scrape_merge after hugo_data nebula_data (load_novels_from_json f))).

End Collector.

(** ** The collector, row by row

    Closed forms used to state what a row contributes. *)

Section CollectorRows.
Context `{PyStr}.

(** The year line 112 parses from a row and line 114 keeps: the row has a
    cell in the year column, the cell is not a retro one, and its first
    word is a positive integer. *)
Definition parsed_year (year_col_index : nat) (r : row) : option Z :=
  match cells r !! year_col_index with
  | Some year_cell =>
      if contains "retro" (str_lower year_cell) then None
      else
        match str_split year_cell with
        | [] => None
        | w :: _ => if 0 <? parse_int w then Some (parse_int w) else None
        end
  | None => None
  end.

(** [current_year] after a row. *)
Definition next_year (year_col_index : nat) (current_year : Z) (r : row) : Z :=
  match parsed_year year_col_index r with
  | Some y => y
  | None => current_year
  end.

(** The most recent year parsed in a run of rows, if any. *)
Fixpoint last_parsed_year (year_col_index : nat) (rows : list row) : option Z :=
  match rows with
  | [] => None
  | r :: rest =>
      match last_parsed_year year_col_index rest with
      | Some y => Some y
      | None => parsed_year year_col_index r
      end
  end.

(** The entries a row gives under the year [current_year]. *)
Definition row_entries (award_name : string) (current_year : Z) (r : row)
    : list novel :=
  if current_year =? 0 then []
  else map (new_entry award_name current_year) (List.filter nonempty (i_tags r)).

(** The test of line 94 on a header cell. *)
Definition is_year_header (cell : string) : bool :=
  contains "year" (str_lower cell) && negb (contains "awarded" (str_lower cell)).

(** A row on which line 112 fails: it has a cell in the year column, the
    cell is not a retro one, and [split()] finds no word in it. *)
Definition blank_year_cell (year_col_index : nat) (r : row) : Prop :=
  exists year_cell,
    cells r !! year_col_index = Some year_cell /\
    contains "retro" (str_lower year_cell) = false /\
    str_split year_cell = [].

End CollectorRows.

(** ** The annotator (command [process]) *)

(** What the command does that can be seen from outside: the entry it
    announces and opens a search page for (lines 254-259), and each write of
    the JSON file (line 288). *)
Inductive event : Type :=
  | Processing (idx : nat) (n : novel)
  | Saved (novels : list novel).

(** Where a run of [process] stops: the events so far, the file, and how the
    command ended. *)
Record run : Type := mkRun {
  trace : list event;
  disk : file;
  result : outcome unit
}.

(** [user_input.replace('r', '')]. *)
Fixpoint remove_r (s : string) : string :=
  match s with
  | EmptyString => EmptyString
  | String c s' => if Ascii.eqb c "r" then remove_r s' else String c (remove_r s')
  end.

(** Lines 272-283: the POV a reply selects, if any. *)
Definition pov_of_input (pov_input : string) : option string :=
  if String.eqb pov_input "1" then Some "first"
  else if String.eqb pov_input "2" then Some "second"
  else if String.eqb pov_input "3" then Some "third"
  else None.

(** [novel["pov"] = p; novel["read"] = is_read]. *)
Definition assign (p : string) (is_read : bool) (n : novel) : novel :=
  set_read (set_pov n (VStr p)) (VBool is_read).

(** Lines 244-248: index of the first entry whose [pov] is falsy. *)
Fixpoint next_unprocessed (i : nat) (l : list novel) : option nat :=
  match l with
  | [] => None
  | n :: l' => if negb (truthy (pov n)) then Some i else next_unprocessed (S i) l'
  end.

(** [all_novels.sort(key=lambda x: x["year"], reverse=True)]: stable, so
    entries of one year keep their order. *)
Definition year_desc_leb (a b : novel) : bool := year b <=? year a.

Section Annotator.
Context `{PyStr}.

(** The loop of line 261, entered with the entry at [idx] announced, and
    the rest of the outer loop after it.  [inputs] holds the replies
    [input] will return; when they run out, [input] raises [EOFError]. *)
Fixpoint prompt_loop (inputs : list string) (all_novels : list novel)
    (idx : nat) (f : file) (tr : list event) : run :=
  match inputs with
  | [] => mkRun tr f (Raise EOFError)
  | reply :: inputs' =>
      let user_input := str_lower (str_strip reply) in
      if in_list user_input ["quit"; "exit"] then mkRun tr f (Ok tt)
      else
        let is_read := contains "r" user_input in
        let pov_input := remove_r user_input in
        match pov_of_input pov_input with
        | Some p =>
            let all_novels := alter (assign p is_read) idx all_novels in
            let f := save_novels_to_json all_novels in
            let tr := (tr ++ [Saved all_novels])%list in
            match next_unprocessed 0 all_novels with
            | None => mkRun tr f (Ok tt)
            | Some idx' =>
                match all_novels !! idx' with
                | None => mkRun tr f (Raise IndexError)
                | Some n =>
                    prompt_loop inputs' all_novels idx' f
                      (tr ++ [Processing idx' n])%list
                end
            end
        | None => prompt_loop inputs' all_novels idx f tr
        end
  end.

Definition process (inputs : list string) (f : file) : run :=
  let all_novels := load_novels_from_json f in
  match all_novels with
  | [] => mkRun [] f (Ok tt)
  | _ =>
      let all_novels := stable_sort year_desc_leb all_novels in
      match next_unprocessed 0 all_novels with
      | None => mkRun [] f (Ok tt)
      | Some idx =>
          match all_novels !! idx with
          | None => mkRun [] f (Raise IndexError)
          | Some n => prompt_loop inputs all_novels idx f [Processing idx n]
          end
      end
  end.

End Annotator.

(** ** Predicates of the data model *)

Definition valid_pov (v : value) : Prop :=
  v = VNull \/ v = VStr "first" \/ v = VStr "second" \/ v = VStr "third".

Definition is_boolean (v : value) : Prop := exists b, v = VBool b.

(** [pov: optional enum{first,second,third}, read: boolean]. *)
Definition well_typed (n : novel) : Prop :=
  valid_pov (pov n) /\ is_boolean (read n).

(** [(title, year)] identifies a record. *)
Definition unique_keys (l : list novel) : Prop := NoDup (map key_of l).

(** A record as the collector creates it. *)
Definition fresh (award_name : string) (n : novel) : Prop :=
  award n = award_name /\ title n <> "" /\ 0 < year n /\
  pov n = VNull /\ read n = VBool false.

(** The contents of the file after a run of events, from the contents [f]
    before them. *)
Definition file_after (f : file) (tr : list event) : file :=
  fold_left
    (fun f e => match e with
                | Saved novels => save_novels_to_json novels
                | Processing _ _ => f
                end)
    tr f.

(** The shape of a run of the annotator over the collection [all_novels]:
    each entry announced is an entry of the collection with a falsy [pov];
    what follows it, if anything, is the write of the entire collection with
    that one entry assigned a POV and a read flag; and the next entry is
    announced after the write, from the collection just written. *)
Inductive annotation_log : list novel -> list event -> Prop :=
  | log_end (all_novels : list novel) :
      annotation_log all_novels []
  | log_waiting (all_novels : list novel) (idx : nat) (n : novel) :
      all_novels !! idx = Some n ->
      truthy (pov n) = false ->
      annotation_log all_novels [Processing idx n]
  | log_annotated (all_novels : list novel) (idx : nat) (n : novel)
      (p : string) (is_read : bool) (rest : list event) :
      all_novels !! idx = Some n ->
      truthy (pov n) = false ->
      In p ["first"; "second"; "third"] ->
      annotation_log (alter (assign p is_read) idx all_novels) rest ->
      annotation_log all_novels
        (Processing idx n :: Saved (alter (assign p is_read) idx all_novels) :: rest).

(** How an entry [a] of a written list stands to the entry [b] at the same
    place of the collection [process] started from: same title, award and
    year, and the very same record when [b] already had a POV. *)
Definition annotated_from (b a : novel) : Prop :=
  title a = title b /\ award a = award b /\ year a = year b /\
  (truthy (pov b) = true -> a = b).

(** The entries a run announces, with their positions, in order. *)
Fixpoint announced (tr : list event) : list (nat * novel) :=
  match tr with
  | [] => []
  | Processing idx n :: tr' => (idx, n) :: announced tr'
  | Saved _ :: tr' => announced tr'
  end.

(** [y] is announced after [x]: further down the list, and not more recent. *)
Definition later_entry (x y : nat * novel) : Prop :=
  (fst x < fst y)%nat /\ year (snd y) <= year (snd x).

(** A list in the order of line 240: years never increase. *)
Definition year_desc (l : list novel) : Prop :=
  forall i j a b,
    (i < j)%nat -> l !! i = Some a -> l !! j = Some b -> year b <= year a.

(** ** What a run of the annotator has to look like

    Stated on the replies, the records and the file themselves. *)

(** The list last written in a run of events, if any. *)
Fixpoint last_saved (tr : list event) : option (list novel) :=
  match tr with
  | [] => None
  | e :: tr' =>
      match last_saved tr' with
      | Some l => Some l
      | None =>
          match e with
          | Saved l => Some l
          | Processing _ _ => None
          end
      end
  end.

(** [idx] is the first place of [all_novels] whose entry, [n], has a falsy
    [pov]. *)
Definition first_unannotated (all_novels : list novel) (idx : nat) (n : novel)
    : Prop :=
  all_novels !! idx = Some n /\ truthy (pov n) = false /\
  forall j m, (j < idx)%nat -> all_novels !! j = Some m -> truthy (pov m) = true.

(** [written] is the entire collection [all_novels] with one change: the
    entry [n] at [idx] now has the POV [p] and the read flag [is_read]. *)
Definition annotated_at (all_novels written : list novel) (idx : nat) (n : novel)
    (p : string) (is_read : bool) : Prop :=
  length written = length all_novels /\
  (forall j, j <> idx -> written !! j = all_novels !! j) /\
  exists n',
    written !! idx = Some n' /\
    title n' = title n /\ award n' = award n /\ year n' = year n /\
    pov n' = VStr p /\ read n' = VBool is_read.

Section AnnotatorSpec.
Context `{PyStr}.

(** The reply as lines 262-270 read it. *)
Definition normalized (reply : string) : string := str_lower (str_strip reply).

Definition is_quit (reply : string) : Prop :=
  normalized reply = "quit" \/ normalized reply = "exit".

(** The reply selects the POV [p] and the read flag [is_read]. *)
Definition chooses (reply : string) (p : string) (is_read : bool) : Prop :=
  ~ is_quit reply /\
  ((remove_r (normalized reply) = "1" /\ p = "first") \/
   (remove_r (normalized reply) = "2" /\ p = "second") \/
   (remove_r (normalized reply) = "3" /\ p = "third")) /\
  is_read = contains "r" (normalized reply).

(** The reply is answered with "Invalid input". *)
Definition rejected (reply : string) : Prop :=
  ~ is_quit reply /\
  remove_r (normalized reply) <> "1" /\
  remove_r (normalized reply) <> "2" /\
  remove_r (normalized reply) <> "3".

(** The replies select nothing: all are rejected up to a quit or exit, or
    up to their end. *)
Definition no_choice (replies : list string) : Prop :=
  exists skipped rest,
    replies = (skipped ++ rest)%list /\ Forall rejected skipped /\
    (rest = [] \/ exists q rest', rest = q :: rest' /\ is_quit q).

(** A run over the collection [all_novels] with the replies [replies]:
    - nothing is announced when every entry has a POV;
    - otherwise the first entry without POV is announced, and the run stops
      there when the replies select nothing;
    - otherwise the first reply that is not rejected selects a POV and a
      read flag, the next event is the write of the entire collection with
      exactly that entry given them, and the run goes on, after the write,
      over the collection written and the replies left. *)
Inductive annotation_run : list novel -> list string -> list event -> Prop :=
  | run_nothing (all_novels : list novel) (replies : list string) :
      Forall (fun n => truthy (pov n) = true) all_novels ->
      annotation_run all_novels replies []
  | run_stopped (all_novels : list novel) (replies : list string)
      (idx : nat) (n : novel) :
      first_unannotated all_novels idx n ->
      no_choice replies ->
      annotation_run all_novels replies [Processing idx n]
  | run_annotated (all_novels : list novel) (skipped : list string)
      (reply : string) (replies : list string) (idx : nat) (n : novel)
      (p : string) (is_read : bool) (written : list novel) (rest : list event) :
      first_unannotated all_novels idx n ->
      Forall rejected skipped ->
      chooses reply p is_read ->
      annotated_at all_novels written idx n p is_read ->
      annotation_run written replies rest ->
      annotation_run all_novels (skipped ++ reply :: replies)
        (Processing idx n :: Saved written :: rest).

End AnnotatorSpec.

(** ** An instance of the builtins on ASCII text

    Enough of Python's behaviour to run the model on the pages below:
    letters A-Z, blanks, and plain decimal numerals. *)

Definition ascii_lower_char (c : ascii) : ascii :=
  let n := nat_of_ascii c in
  if ((65 <=? n) && (n <=? 90))%nat then ascii_of_nat (n + 32) else c.

Fixpoint ascii_lower (s : string) : string :=
  match s with
  | EmptyString => EmptyString
  | String c s' => String (ascii_lower_char c) (ascii_lower s')
  end.

Definition is_blank (c : ascii) : bool :=
  let n := nat_of_ascii c in
  ((n =? 32) || ((9 <=? n) && (n <=? 13)))%nat.

Fixpoint ascii_split_from (word : string) (s : string) : list string :=
  match s with
  | EmptyString => if String.eqb word "" then [] else [word]
  | String c s' =>
      if is_blank c
      then if String.eqb word "" then ascii_split_from "" s'
           else word :: ascii_split_from "" s'
      else ascii_split_from (word ++ String c "") s'
  end.

Definition ascii_split (s : string) : list string := ascii_split_from "" s.

Fixpoint strip_left (s : string) : string :=
  match s with
  | String c s' => if is_blank c then strip_left s' else s
  | EmptyString => EmptyString
  end.

Fixpoint strip_right (s : string) : string :=
  match s with
  | EmptyString => EmptyString
  | String c s' =>
      let t := strip_right s' in
      if is_blank c && String.eqb t "" then EmptyString else String c t
  end.

Definition ascii_strip (s : string) : string := strip_right (strip_left s).

Fixpoint decimal (acc : Z) (s : string) : option Z :=
  match s with
  | EmptyString => Some acc
  | String c s' =>
      let n := nat_of_ascii c in
      if ((48 <=? n) && (n <=? 57))%nat
      then decimal (10 * acc + Z.of_nat (n - 48)) s'
      else None
  end.

Definition ascii_int (s : string) : option Z :=
  match s with
  | EmptyString => None
  | String "-" (String c s') => Z.opp <$> decimal 0 (String c s')
  | String "+" (String c s') => decimal 0 (String c s')
  | _ => decimal 0 s
  end.

Definition ascii_builtins : PyStr :=
  {| str_lower := ascii_lower; str_strip := ascii_strip;
     str_split := ascii_split; py_int := ascii_int |}.

(** ** Pages and files used to run the model *)

Definition header_row : row :=
  mkRow ["Year"; "Author"; "Novel"; "Publisher"] [].

Definition hugo_page : response :=
  Page [[header_row;
         mkRow ["1993"; "Connie Willis*"; "Doomsday Book"; "Bantam Spectra"]
               ["Doomsday Book"];
         mkRow ["Vernor Vinge*"; "A Fire Upon the Deep"; "Tor Books"]
               ["A Fire Upon the Deep"]]].

Definition nebula_page : response :=
  Page [[header_row;
         mkRow ["1993"; "Connie Willis*"; "Doomsday Book"; "Bantam Spectra"]
               ["Doomsday Book"]]].

Definition doomsday (a : string) (p r : value) : novel :=
  {| title := "Doomsday Book"; award := a; year := 1993; pov := p; read := r |}.

Definition fire_upon_the_deep : novel :=
  {| title := "A Fire Upon the Deep"; award := "Hugo"; year := 1993;
     pov := VNull; read := VBool false |}.

Definition dune : novel :=
  {| title := "Dune"; award := "Hugo|Nebula"; year := 1966;
     pov := VStr "third"; read := VBool true |}.

(** ** Sorting: permutation and order *)

Section Sorting.
Context {A : Type} (le : A -> A -> bool).

Lemma insert_sorted_perm (x : A) (l : list A) :
  Permutation (insert_sorted le x l) (x :: l).
Proof.
  induction l as [|y l IH]; simpl.
  - reflexivity.
  - destruct (le x y).
    + reflexivity.
    + rewrite IH. apply perm_swap.
Qed.

Lemma stable_sort_perm (l : list A) : Permutation (stable_sort le l) l.
Proof.
  induction l as [|x l IH]; simpl.
  - reflexivity.
  - rewrite insert_sorted_perm. now apply perm_skip.
Qed.

Lemma stable_sort_In (x : A) (l : list A) :
  In x (stable_sort le l) <-> In x l.
Proof.
  split; apply Permutation_in; [|symmetry]; apply stable_sort_perm.
Qed.

Variable R : A -> A -> Prop.
Hypothesis le_R : forall x y, le x y = true -> R x y.
Hypothesis le_total : forall x y, le x y = false -> R y x.

Lemma insert_sorted_HdRel (a x : A) (l : list A) :
  R a x -> HdRel R a l -> HdRel R a (insert_sorted le x l).
Proof.
  intros Hax Hl. destruct l as [|y l]; simpl.
  - now constructor.
  - inversion Hl; subst. destruct (le x y); now constructor.
Qed.

Lemma insert_sorted_Sorted (x : A) (l : list A) :
  Sorted R l -> Sorted R (insert_sorted le x l).
Proof.
  induction 1 as [|y l Hs IH Hhd]; simpl.
  - repeat constructor.
  - destruct (le x y) eqn:E.
    + constructor; [now constructor|]. constructor. now apply le_R.
    + constructor; [assumption|].
      apply insert_sorted_HdRel; [now apply le_total|assumption].
Qed.

Lemma stable_sort_Sorted (l : list A) : Sorted R (stable_sort le l).
Proof.
  induction l as [|x l IH]; simpl.
  - constructor.
  - now apply insert_sorted_Sorted.
Qed.

End Sorting.

(** ** The order on [(year, title)] *)

Lemma ascii_compare_refl (a : ascii) : Ascii.compare a a = Eq.
Proof. unfold Ascii.compare. apply N.compare_refl. Qed.

Lemma ascii_compare_lt_trans (a b c : ascii) :
  Ascii.compare a b = Lt -> Ascii.compare b c = Lt -> Ascii.compare a c = Lt.
Proof.
  unfold Ascii.compare. rewrite !N.compare_lt_iff. apply N.lt_trans.
Qed.

Lemma string_compare_trans (s1 : string) :
  forall s2 s3,
    String.compare s1 s2 <> Gt -> String.compare s2 s3 <> Gt ->
    String.compare s1 s3 <> Gt.
Proof.
  induction s1 as [|a s1 IH]; intros [|b s2] [|c s3]; simpl; try congruence.
  destruct (Ascii.compare a b) eqn:E1, (Ascii.compare b c) eqn:E2;
    try congruence.
  - apply Ascii.compare_eq_iff in E1, E2. subst.
    rewrite ascii_compare_refl. apply IH.
  - apply Ascii.compare_eq_iff in E1. subst. rewrite E2. congruence.
  - apply Ascii.compare_eq_iff in E2. subst. rewrite E1. congruence.
  - rewrite (ascii_compare_lt_trans _ _ _ E1 E2). congruence.
Qed.

Lemma string_leb_trans (s1 s2 s3 : string) :
  String.leb s1 s2 = true -> String.leb s2 s3 = true -> String.leb s1 s3 = true.
Proof.
  unfold String.leb. intros H12 H23.
  pose proof (string_compare_trans s1 s2 s3) as T.
  destruct (String.compare s1 s2), (String.compare s2 s3),
    (String.compare s1 s3); try reflexivity; try discriminate;
    exfalso; apply T; congruence.
Qed.

Lemma year_title_leb_le (a b : novel) :
  year_title_leb a b = true -> year_title_le a b.
Proof.
  unfold year_title_leb, year_title_le. intros H.
  apply orb_true_iff in H as [H|H].
  - left. lia.
  - apply andb_true_iff in H as [H1 H2]. right. split; [lia|assumption].
Qed.

Lemma year_title_leb_total (a b : novel) :
  year_title_leb a b = false -> year_title_le b a.
Proof.
  unfold year_title_leb, year_title_le. intros H.
  apply orb_false_iff in H as [H1 H2].
  apply andb_false_iff in H2 as [H2|H2].
  - left. lia.
  - destruct (Z.eq_dec (year a) (year b)) as [E|E]; [|left; lia].
    right. split; [lia|].
    destruct (String.leb_total (title a) (title b)) as [L|L]; congruence.
Qed.

Lemma year_title_le_trans (a b c : novel) :
  year_title_le a b -> year_title_le b c -> year_title_le a c.
Proof.
  unfold year_title_le. intros [H1|[H1 L1]] [H2|[H2 L2]];
    try (left; lia).
  right. split; [lia|]. now apply string_leb_trans with (title b).
Qed.

(** ** Dictionaries: lookup after assignment, keys, values *)

Lemma key_eqb_eq (a b : key) : key_eqb a b = true <-> a = b.
Proof.
  destruct a as [t1 y1], b as [t2 y2]. unfold key_eqb. simpl.
  rewrite andb_true_iff, String.eqb_eq, Z.eqb_eq.
  split; [intros [-> ->]; reflexivity | intros E; now inversion E].
Qed.

Lemma key_eqb_refl (a : key) : key_eqb a a = true.
Proof. now apply key_eqb_eq. Qed.

Lemma key_eqb_neq (a b : key) : key_eqb a b = false <-> a <> b.
Proof.
  rewrite <- key_eqb_eq. destruct (key_eqb a b); split; congruence.
Qed.

Lemma dict_get_set (k k' : key) (v : novel) (d : dict) :
  dict_get k' (dict_set k v d) = if key_eqb k' k then Some v else dict_get k' d.
Proof.
  induction d as [|[k0 v0] d IH]; simpl.
  - destruct (key_eqb k' k); reflexivity.
  - destruct (key_eqb k k0) eqn:E; simpl.
    + apply key_eqb_eq in E. subst k0.
      destruct (key_eqb k' k); reflexivity.
    + rewrite IH. destruct (key_eqb k' k0) eqn:E0; [|reflexivity].
      apply key_eqb_eq in E0. subst k0.
      destruct (key_eqb k' k) eqn:E1; [|reflexivity].
      apply key_eqb_eq in E1. subst k'. rewrite key_eqb_refl in E. discriminate.
Qed.

Lemma dict_get_set_same (k : key) (v : novel) (d : dict) :
  dict_get k (dict_set k v d) = Some v.
Proof. rewrite dict_get_set. now rewrite key_eqb_refl. Qed.

Lemma dict_get_set_other (k k' : key) (v : novel) (d : dict) :
  k' <> k -> dict_get k' (dict_set k v d) = dict_get k' d.
Proof.
  intros N. rewrite dict_get_set. apply key_eqb_neq in N. now rewrite N.
Qed.

Lemma dict_get_In (k : key) (v : novel) (d : dict) :
  dict_get k d = Some v -> In (k, v) d.
Proof.
  induction d as [|[k0 v0] d IH]; simpl; [discriminate|].
  destruct (key_eqb k k0) eqn:E.
  - apply key_eqb_eq in E. intros [= ->]. left. now subst.
  - intros G. right. now apply IH.
Qed.

Lemma dict_get_None (k : key) (d : dict) :
  dict_get k d = None <-> ~ In k (dict_keys d).
Proof.
  induction d as [|[k0 v0] d IH]; simpl.
  - tauto.
  - destruct (key_eqb k k0) eqn:E.
    + apply key_eqb_eq in E. subst. split; [discriminate|tauto].
    + apply key_eqb_neq in E. rewrite IH. split; [intros ? [?|?]|]; tauto || congruence.
Qed.

Lemma dict_keys_set (k : key) (v : novel) (d : dict) :
  dict_keys (dict_set k v d) =
  match dict_get k d with
  | Some _ => dict_keys d
  | None => (dict_keys d ++ [k])%list
  end.
Proof.
  induction d as [|[k0 v0] d IH]; simpl; [reflexivity|].
  destruct (key_eqb k k0) eqn:E; simpl; [reflexivity|].
  rewrite IH. now destruct (dict_get k d).
Qed.

Lemma dict_ok_nil : dict_ok [].
Proof. split; constructor. Qed.

Lemma dict_set_entries (P : key * novel -> Prop) (k : key) (v : novel) (d : dict) :
  (forall k', P (k', v)) -> Forall P d -> Forall P (dict_set k v d).
Proof.
  intros Pv. induction 1 as [|[k0 v0] d H0 Hd IH]; simpl.
  - repeat constructor. apply Pv.
  - destruct (key_eqb k k0); constructor; auto.
Qed.

Lemma dict_ok_set (v : novel) (d : dict) (k : key) :
  k = key_of v -> dict_ok d -> dict_ok (dict_set k v d).
Proof.
  intros -> [N C]. split.
  - rewrite dict_keys_set. destruct (dict_get (key_of v) d) eqn:G; [assumption|].
    apply dict_get_None in G.
    apply NoDup_app. split; [assumption|]. split.
    + intros x Hx Hin. apply list_elem_of_In in Hx.
      apply list_elem_of_singleton in Hin. now subst.
    + apply NoDup_singleton.
  - clear N. induction C as [|[k0 v0] d H0 Hd IH]; simpl.
    + now repeat constructor.
    + destruct (key_eqb (key_of v) k0) eqn:E.
      * apply key_eqb_eq in E. subst k0. now constructor.
      * now constructor.
Qed.

Lemma dict_ok_keys (d : dict) :
  dict_ok d -> map key_of (dict_values d) = dict_keys d.
Proof.
  intros [_ C]. unfold dict_values, dict_keys.
  induction C as [|[k0 v0] d H0 Hd IH]; simpl; [reflexivity|].
  simpl in H0. now rewrite IH, H0.
Qed.

Lemma dict_ok_unique (d : dict) : dict_ok d -> unique_keys (dict_values d).
Proof.
  intros Hok. unfold unique_keys. rewrite dict_ok_keys by assumption. apply Hok.
Qed.

Lemma dict_get_value (k : key) (v : novel) (d : dict) :
  dict_get k d = Some v -> In v (dict_values d).
Proof.
  intros G. apply dict_get_In in G. unfold dict_values.
  apply in_map_iff. now exists (k, v).
Qed.

Lemma dict_get_key (k : key) (v : novel) (d : dict) :
  dict_ok d -> dict_get k d = Some v -> key_of v = k.
Proof.
  intros [_ C] G. apply dict_get_In in G.
  rewrite List.Forall_forall in C. symmetry. apply (C _ G).
Qed.

Lemma dict_value_get (v : novel) (d : dict) :
  dict_ok d -> In v (dict_values d) -> dict_get (key_of v) d = Some v.
Proof.
  intros [N C]. induction d as [|[k0 v0] d IH]; simpl; [tauto|].
  inversion N as [|? ? Nin N']; subst. inversion C as [|? ? C0 C']; subst.
  simpl in C0. intros [E|Hin].
  - subst v0. subst k0. now rewrite key_eqb_refl.
  - destruct (key_eqb (key_of v) k0) eqn:E.
    + exfalso. apply key_eqb_eq in E. apply Nin. rewrite <- E.
      unfold dict_values in Hin. apply in_map_iff in Hin as [[k1 v1] [E1 Hin]].
      simpl in E1. subst v1. rewrite List.Forall_forall in C'.
      pose proof (C' _ Hin) as E2. simpl in E2. subst k1.
      apply list_elem_of_In, in_map_iff. now exists (key_of v, v).
    + now apply IH.
Qed.

(** ** The merge loop *)

Lemma fold_left_inv {S A : Type} (f : S -> A -> S) (I : S -> Prop) (l : list A) :
  forall s, I s -> (forall s x, I s -> In x l -> I (f s x)) -> I (fold_left f l s).
Proof.
  induction l as [|x l IH]; simpl; intros s Hs Hf; [assumption|].
  apply IH; [apply Hf; auto|]. intros s' y Hs' Hy. apply Hf; auto.
Qed.

(** What one pass of the loop stores: the new item, under its own key, with
    the old entry's [pov] when that is set and with the two awards joined
    when they differ. *)
Lemma merge_item_set (d : dict) (item : novel) :
  exists item',
    merge_item d item = dict_set (key_of item) item' d /\
    title item' = title item /\ year item' = year item /\
    read item' = read item /\
    match dict_get (key_of item) d with
    | None => item' = item
    | Some old =>
        pov item' = (if is_not_none (pov old) then pov old else pov item) /\
        award item' =
          (if negb (String.eqb (award item) (award old))
           then join "|" (sorted [award item; award old])
           else award item)
    end.
Proof.
  unfold merge_item. destruct (dict_get (key_of item) d) as [old|].
  - eexists. split; [reflexivity|].
    destruct (is_not_none (pov old)); simpl;
      destruct (negb (String.eqb (award item) (award old))); simpl; auto.
  - exists item. auto.
Qed.

Lemma merge_item_key (d : dict) (item : novel) :
  exists item',
    merge_item d item = dict_set (key_of item) item' d /\
    key_of item' = key_of item.
Proof.
  destruct (merge_item_set d item) as (item' & E & Ht & Hy & _).
  exists item'. split; [assumption|]. unfold key_of. now rewrite Ht, Hy.
Qed.

Lemma merge_item_ok (d : dict) (item : novel) :
  dict_ok d -> dict_ok (merge_item d item).
Proof.
  intros Hok. destruct (merge_item_key d item) as (item' & -> & K).
  now apply dict_ok_set.
Qed.

Lemma index_existing_ok (l : list novel) : dict_ok (index_existing l).
Proof.
  unfold index_existing. apply fold_left_inv; [apply dict_ok_nil|].
  intros d x Hd _. now apply dict_ok_set.
Qed.

Lemma merge_loop_ok (l : list novel) (d : dict) :
  dict_ok d -> dict_ok (fold_left merge_item l d).
Proof.
  intros Hd. apply fold_left_inv; [assumption|].
  intros d' x Hd' _. now apply merge_item_ok.
Qed.

Lemma dict_set_values (P : novel -> Prop) (k : key) (v : novel) (d : dict) :
  P v -> Forall P (dict_values d) -> Forall P (dict_values (dict_set k v d)).
Proof.
  intros Pv. unfold dict_values. induction d as [|[k0 v0] d IH]; simpl; intros F.
  - now repeat constructor.
  - inversion F; subst. destruct (key_eqb k k0); simpl; constructor; auto.
Qed.

Lemma index_existing_values (P : novel -> Prop) (l : list novel) :
  Forall P l -> Forall P (dict_values (index_existing l)).
Proof.
  intros F. unfold index_existing.
  apply (fold_left_inv _ (fun d => Forall P (dict_values d))); [constructor|].
  intros d x Hd Hx. apply dict_set_values; [|assumption].
  rewrite List.Forall_forall in F. now apply F.
Qed.

Lemma year_filter_In (after : Z) (n : novel) (l : list novel) :
  In n (year_filter after l) <-> In n l /\ after <= year n.
Proof. unfold year_filter. rewrite filter_In. now rewrite Z.leb_le. Qed.

Lemma year_filter_years (after : Z) (l : list novel) :
  Forall (fun n => after <= year n) (year_filter after l).
Proof.
  apply List.Forall_forall. intros n Hn. now apply year_filter_In in Hn.
Qed.

Lemma merge_loop_years (after : Z) (l : list novel) (d : dict) :
  Forall (fun n => after <= year n) l ->
  Forall (fun n => after <= year n) (dict_values d) ->
  Forall (fun n => after <= year n) (dict_values (fold_left merge_item l d)).
Proof.
  intros Hl Hd.
  apply (fold_left_inv _ (fun d => Forall (fun n => after <= year n) (dict_values d)));
    [assumption|].
  intros d' x Hd' Hx. destruct (merge_item_set d' x) as (x' & -> & _ & Hy & _).
  apply dict_set_values; [|assumption].
  rewrite Hy. rewrite List.Forall_forall in Hl. now apply Hl.
Qed.

Lemma scrape_merge_map (after : Z) (hugo_data nebula_data existing_data : list novel) :
  scrape_merge after hugo_data nebula_data existing_data =
  stable_sort year_title_leb
    (dict_values (merged_map after hugo_data nebula_data existing_data)).
Proof. reflexivity. Qed.

Lemma merged_map_ok (after : Z) (hugo_data nebula_data existing_data : list novel) :
  dict_ok (merged_map after hugo_data nebula_data existing_data).
Proof. apply merge_loop_ok, index_existing_ok. Qed.

Lemma scrape_merge_In (after : Z) (hugo_data nebula_data existing_data : list novel)
    (r : novel) :
  In r (scrape_merge after hugo_data nebula_data existing_data) <->
  dict_get (key_of r) (merged_map after hugo_data nebula_data existing_data) = Some r.
Proof.
  rewrite scrape_merge_map, stable_sort_In. split.
  - apply dict_value_get, merged_map_ok.
  - apply dict_get_value.
Qed.

Lemma scrape_merge_years (after : Z) (hugo_data nebula_data existing_data : list novel) :
  Forall (fun n => after <= year n)
    (scrape_merge after hugo_data nebula_data existing_data).
Proof.
  rewrite scrape_merge_map.
  eapply Permutation_Forall; [symmetry; apply stable_sort_perm|].
  apply merge_loop_years; [apply year_filter_years|].
  apply index_existing_values, year_filter_years.
Qed.

(** C4.  After the merge of the [scrape] command, the list it saves holds
    each [(title, year)] pair once, whatever the newly collected entries and
    the previously persisted list are. *)
Theorem scrape_unique_keys
    (after : Z) (hugo_data nebula_data existing_data : list novel) :
  unique_keys (scrape_merge after hugo_data nebula_data existing_data).
Proof.
  rewrite scrape_merge_map. unfold unique_keys.
  apply (NoDup_Permutation_proper _ _
           (Permutation_map key_of (stable_sort_perm year_title_leb _))).
  apply dict_ok_unique, merged_map_ok.
Qed.

(** C10.  The list the [scrape] command saves is in ascending order of
    [(year, title)]: every record precedes, in that order, all the records
    after it; and every record's year is at least the [--after] value. *)
Theorem scrape_sorted_and_filtered
    (after : Z) (hugo_data nebula_data existing_data : list novel) :
  StronglySorted year_title_le
    (scrape_merge after hugo_data nebula_data existing_data) /\
  Forall (fun n => after <= year n)
    (scrape_merge after hugo_data nebula_data existing_data).
Proof.
  split; [|apply scrape_merge_years].
  apply Sorted_StronglySorted.
  - intros a b c. apply year_title_le_trans.
  - apply stable_sort_Sorted.
    + apply year_title_leb_le.
    + apply year_title_leb_total.
Qed.

(** ** What the merge keeps *)

Lemma index_fold_other (k : key) (l : list novel) :
  forall d,
    ~ In k (map key_of l) ->
    dict_get k (fold_left (fun m item => dict_set (key_of item) item m) l d) =
    dict_get k d.
Proof.
  induction l as [|x l IH]; simpl; intros d N; [reflexivity|].
  rewrite IH by tauto. apply dict_get_set_other. intros E. apply N. now left.
Qed.

Lemma index_fold_get (p : novel) (l : list novel) :
  forall d,
    unique_keys l -> In p l ->
    dict_get (key_of p)
      (fold_left (fun m item => dict_set (key_of item) item m) l d) = Some p.
Proof.
  unfold unique_keys.
  induction l as [|x l IH]; simpl; intros d U Hin; [tauto|].
  apply NoDup_cons in U as [Nx U]. destruct Hin as [->|Hin].
  - rewrite index_fold_other; [apply dict_get_set_same|].
    intros Hk. apply Nx. now apply list_elem_of_In.
  - now apply IH.
Qed.

Lemma index_existing_get (p : novel) (l : list novel) :
  unique_keys l -> In p l -> dict_get (key_of p) (index_existing l) = Some p.
Proof. apply index_fold_get. Qed.

Lemma index_fold_has (p : novel) (l : list novel) :
  forall d,
    In p l \/ dict_get (key_of p) d <> None ->
    dict_get (key_of p)
      (fold_left (fun m item => dict_set (key_of item) item m) l d) <> None.
Proof.
  induction l as [|x l IH]; simpl; intros d Hp; [tauto|].
  apply IH. destruct Hp as [[->|Hin]|Hd]; [right|left|right]; try assumption.
  - now rewrite dict_get_set_same.
  - rewrite dict_get_set. now destruct (key_eqb (key_of p) (key_of x)).
Qed.

Lemma merge_loop_has (k : key) (l : list novel) (d : dict) :
  dict_get k d <> None -> dict_get k (fold_left merge_item l d) <> None.
Proof.
  intros Hd. apply (fold_left_inv _ (fun d => dict_get k d <> None)); [assumption|].
  intros d' x Hd' _. destruct (merge_item_key d' x) as (x' & -> & _).
  rewrite dict_get_set. now destruct (key_eqb k (key_of x)).
Qed.

Lemma unique_keys_filter (after : Z) (l : list novel) :
  unique_keys l -> unique_keys (year_filter after l).
Proof.
  unfold unique_keys, year_filter.
  induction l as [|x l IH]; simpl; intros U; [constructor|].
  apply NoDup_cons in U as [Nx U]. destruct (after <=? year x); simpl; [|auto].
  apply NoDup_cons. split; [|auto].
  intros Hin. apply Nx. apply list_elem_of_In in Hin. apply list_elem_of_In.
  apply in_map_iff in Hin as (y & E & Hy). apply filter_In in Hy as [Hy _].
  apply in_map_iff. now exists y.
Qed.

Lemma is_not_none_false (v : value) : is_not_none v = false -> v = VNull.
Proof. now destruct v. Qed.

Lemma is_not_none_true (v : value) : is_not_none v = true <-> v <> VNull.
Proof. destruct v; simpl; split; congruence. Qed.

(** Through the whole loop, the entry under a key keeps the [pov] it had
    when that [pov] is set, or when the new items carry none. *)
Lemma merge_loop_pov (k : key) (l : list novel) :
  forall d v,
    dict_get k d = Some v ->
    pov v <> VNull \/ Forall (fun e => pov e = VNull) l ->
    exists v', dict_get k (fold_left merge_item l d) = Some v' /\ pov v' = pov v.
Proof.
  induction l as [|x l IH]; simpl; intros d v G C; [eauto|].
  destruct (merge_item_set d x) as (x' & -> & _ & _ & _ & M).
  destruct (key_eqb k (key_of x)) eqn:E.
  - apply key_eqb_eq in E. subst k. rewrite G in M. destruct M as [Mp _].
    assert (Px : pov x' = pov v).
    { rewrite Mp. destruct (is_not_none (pov v)) eqn:Nn; [reflexivity|].
      apply is_not_none_false in Nn. rewrite Nn.
      destruct C as [C|C]; [congruence|]. now inversion C. }
    destruct (IH (dict_set (key_of x) x' d) x') as (v' & G' & P').
    + apply dict_get_set_same.
    + rewrite Px. destruct C as [C|C]; [now left|right; now inversion C].
    + exists v'. split; [assumption|congruence].
  - apply key_eqb_neq in E. apply (IH (dict_set (key_of x) x' d) v).
    + now rewrite dict_get_set_other.
    + destruct C as [C|C]; [now left|right; now inversion C].
Qed.

Lemma merged_pov (after : Z) (hugo_data nebula_data existing_data : list novel)
    (p : novel) :
  unique_keys existing_data -> In p existing_data ->
  pov p <> VNull \/ Forall (fun e => pov e = VNull) (hugo_data ++ nebula_data) ->
  (forall r, In r (scrape_merge after hugo_data nebula_data existing_data) ->
             key_of r = key_of p -> pov r = pov p) /\
  (after <= year p ->
   exists r, In r (scrape_merge after hugo_data nebula_data existing_data) /\
             key_of r = key_of p).
Proof.
  intros U Hp C.
  destruct (Z_le_gt_dec after (year p)) as [Hy|Hy].
  - assert (G : dict_get (key_of p) (index_existing (year_filter after existing_data))
                = Some p).
    { apply index_existing_get; [now apply unique_keys_filter|].
      now apply year_filter_In. }
    destruct (merge_loop_pov (key_of p)
                (year_filter after (hugo_data ++ nebula_data)%list) _ _ G)
      as (v' & G' & P').
    { destruct C as [C|C]; [now left|right].
      apply List.Forall_forall. intros e He. apply year_filter_In in He as [He _].
      rewrite List.Forall_forall in C. now apply C. }
    fold (merged_map after hugo_data nebula_data existing_data) in G'.
    pose proof (dict_get_key _ _ _ (merged_map_ok _ _ _ _) G') as K.
    split.
    + intros r Hr Kr. apply scrape_merge_In in Hr. rewrite Kr, G' in Hr.
      congruence.
    + intros _. exists v'. split; [|assumption].
      apply scrape_merge_In. now rewrite K.
  - split; [|lia]. intros r Hr Kr.
    pose proof (scrape_merge_years after hugo_data nebula_data existing_data) as Y.
    rewrite List.Forall_forall in Y. specialize (Y r Hr).
    assert (year r = year p) by (unfold key_of in Kr; congruence). lia.
Qed.

(** C2, as amended.  A record of the previously persisted list whose year is
    at least the [--after] value is not deleted by [scrape]: the saved list
    holds a record with the same [(title, year)]. *)
Theorem scrape_keeps_records_from_after
    (after : Z) (hugo_data nebula_data existing_data : list novel) (p : novel) :
  In p existing_data -> after <= year p ->
  exists r, In r (scrape_merge after hugo_data nebula_data existing_data) /\
            key_of r = key_of p.
Proof.
  intros Hp Hy.
  assert (G : dict_get (key_of p)
                (merged_map after hugo_data nebula_data existing_data) <> None).
  { apply merge_loop_has. apply index_fold_has. left. now apply year_filter_In. }
  destruct (dict_get (key_of p) (merged_map after hugo_data nebula_data existing_data))
    as [v|] eqn:E; [|congruence].
  pose proof (dict_get_key _ _ _ (merged_map_ok _ _ _ _) E) as K.
  exists v. split; [|assumption]. apply scrape_merge_In. now rewrite K.
Qed.

Lemma scrape_keeps_records_from_after_witness :
  exists r, In r (scrape_merge 1990 [doomsday "Hugo" VNull (VBool false)] []
                    [fire_upon_the_deep]) /\
            key_of r = key_of fire_upon_the_deep.
Proof.
  apply (scrape_keeps_records_from_after 1990
           [doomsday "Hugo" VNull (VBool false)] [] [fire_upon_the_deep]
           fire_upon_the_deep).
  - simpl. left. reflexivity.
  - simpl. lia.
Defined.

(** C5.  During the merge an existing non-null [pov] is never replaced by a
    null one: for a persisted record with [pov] set whose key matches a newly
    collected entry, the merged record under that key has the same [pov]
    (and there is such a record once the year passes the [--after] filter).
    The persisted list is one the program wrote: one record per key. *)
Theorem merge_keeps_existing_pov
    (after : Z) (hugo_data nebula_data existing_data : list novel) (p e : novel) :
  unique_keys existing_data ->
  In p existing_data -> pov p <> VNull ->
  In e (hugo_data ++ nebula_data) -> key_of e = key_of p ->
  (forall r, In r (scrape_merge after hugo_data nebula_data existing_data) ->
             key_of r = key_of p -> pov r = pov p) /\
  (after <= year p ->
   exists r, In r (scrape_merge after hugo_data nebula_data existing_data) /\
             key_of r = key_of p /\ pov r = pov p).
Proof.
  intros U Hp Np _ _.
  destruct (merged_pov after hugo_data nebula_data existing_data p U Hp) as [A B];
    [now left|].
  split; [assumption|]. intros Hy. destruct (B Hy) as (r & Hr & Kr).
  exists r. auto.
Qed.

(** ** Loops that may raise *)

Lemma for_each_cons {S A : Type} (body : S -> A -> outcome S) (s : S) (x : A)
    (l : list A) :
  for_each body s (x :: l) =
  match body s x with
  | Ok s' => for_each body s' l
  | Raise e => Raise e
  end.
Proof. reflexivity. Qed.

Lemma for_each_app {S A : Type} (body : S -> A -> outcome S) (l1 l2 : list A) :
  forall s s2,
    for_each body s (l1 ++ l2) = Ok s2 ->
    exists s1, for_each body s l1 = Ok s1 /\ for_each body s1 l2 = Ok s2.
Proof.
  induction l1 as [|x l1 IH]; intros s s2 E.
  - exists s. auto.
  - change ((x :: l1) ++ l2)%list with (x :: (l1 ++ l2))%list in E.
    rewrite for_each_cons in *. destruct (body s x) as [s'|]; [|discriminate].
    now apply IH.
Qed.

Lemma for_each_inv {S A : Type} (body : S -> A -> outcome S) (I : S -> Prop)
    (l : list A) :
  (forall s x s', I s -> body s x = Ok s' -> I s') ->
  forall s s', I s -> for_each body s l = Ok s' -> I s'.
Proof.
  intros Hb. induction l as [|x l IH]; intros s s' Hs E.
  - simpl in E. now inversion E; subst.
  - rewrite for_each_cons in E. destruct (body s x) as [s1|] eqn:B; [|discriminate].
    eapply IH; [|exact E]. eapply Hb; eauto.
Qed.

(** ** The collector: what a row adds, and the year it carries *)

Section CollectorFacts.
Context `{PyStr}.

Lemma collect_titles_app (award_name : string) (current_year : Z)
    (tags : list string) :
  forall award_novels,
    collect_titles award_name current_year award_novels tags =
    (award_novels ++
      map (new_entry award_name current_year) (List.filter nonempty tags))%list.
Proof.
  unfold collect_titles.
  induction tags as [|t tags IH]; simpl; intros acc.
  - now rewrite app_nil_r.
  - rewrite IH. destruct (nonempty t); simpl; [|reflexivity].
    now rewrite <- app_assoc.
Qed.

Lemma titles_of_row_app (award_name : string) (current_year : Z)
    (award_novels : list novel) (r : row) :
  titles_of_row award_name current_year award_novels r =
  (award_novels ++ row_entries award_name current_year r)%list.
Proof.
  unfold titles_of_row, row_entries. destruct (current_year =? 0).
  - now rewrite app_nil_r.
  - apply collect_titles_app.
Qed.

Lemma row_entries_fresh (award_name : string) (current_year : Z) (r : row) :
  0 <= current_year -> Forall (fresh award_name) (row_entries award_name current_year r).
Proof.
  intros Hy. unfold row_entries.
  destruct (current_year =? 0) eqn:E; [constructor|].
  apply Z.eqb_neq in E. apply List.Forall_forall. intros n Hn.
  apply in_map_iff in Hn as (t & <- & Ht). apply filter_In in Ht as [_ Ht].
  unfold fresh, new_entry; simpl. repeat split; try reflexivity; try lia.
  unfold nonempty in Ht. apply negb_true_iff in Ht. now apply String.eqb_neq in Ht.
Qed.

Lemma row_entries_year (award_name : string) (current_year : Z) (r : row) :
  Forall (fun n => year n = current_year) (row_entries award_name current_year r).
Proof.
  unfold row_entries. destruct (current_year =? 0); [constructor|].
  apply List.Forall_forall. intros n Hn.
  now apply in_map_iff in Hn as (t & <- & _).
Qed.

Lemma parsed_year_pos (idx : nat) (r : row) (y : Z) :
  parsed_year idx r = Some y -> 0 < y.
Proof.
  unfold parsed_year. destruct (cells r !! idx) as [c|]; [|discriminate].
  destruct (contains "retro" (str_lower c)); [discriminate|].
  destruct (str_split c) as [|w ws]; [discriminate|].
  destruct (0 <? parse_int w) eqn:E; [|discriminate].
  intros [= <-]. now apply Z.ltb_lt.
Qed.

(** One row: the year carried on, and the entries appended. *)
Lemma scrape_row_spec (idx : nat) (award_name : string) (cy : Z)
    (acc : list novel) (r : row) (st : Z * list novel) :
  scrape_row idx award_name (cy, acc) r = Ok st ->
  exists recs,
    st = (next_year idx cy r, (acc ++ recs)%list) /\
    (recs = [] \/ recs = row_entries award_name (next_year idx cy r) r).
Proof.
  unfold scrape_row, next_year, parsed_year.
  destruct (cells r !! idx) as [c|].
  - destruct (contains "retro" (str_lower c)).
    + intros [= <-]. exists []. split; [now rewrite app_nil_r|now left].
    + destruct (str_split c) as [|w ws]; [discriminate|].
      intros [= <-]. rewrite titles_of_row_app.
      destruct (0 <? parse_int w); eexists; split; try reflexivity; now right.
  - intros [= <-]. rewrite titles_of_row_app.
    eexists; split; try reflexivity; now right.
Qed.

Lemma next_year_nonneg (idx : nat) (cy : Z) (r : row) :
  0 <= cy -> 0 <= next_year idx cy r.
Proof.
  unfold next_year. destruct (parsed_year idx r) as [y|] eqn:E; [|auto].
  intros _. apply parsed_year_pos in E. lia.
Qed.

(** The loop state after a run of rows: the last year parsed in them, or
    the year the run started with. *)
Lemma scrape_rows_year (idx : nat) (award_name : string) (rows : list row) :
  forall cy acc st,
    for_each (scrape_row idx award_name) (cy, acc) rows = Ok st ->
    fst st = match last_parsed_year idx rows with
             | Some y => y
             | None => cy
             end.
Proof.
  induction rows as [|r rows IH]; intros cy acc st E.
  - simpl in E. now inversion E.
  - rewrite for_each_cons in E.
    destruct (scrape_row idx award_name (cy, acc) r) as [st1|] eqn:R;
      [|discriminate].
    apply scrape_row_spec in R as (recs & -> & _).
    apply IH in E. rewrite E. simpl.
    destruct (last_parsed_year idx rows); [reflexivity|].
    unfold next_year. now destruct (parsed_year idx r).
Qed.

Lemma scrape_rows_fresh (idx : nat) (award_name : string) (rows : list row)
    (acc out : list novel) :
  Forall (fresh award_name) acc ->
  scrape_rows idx award_name acc rows = Ok out ->
  Forall (fresh award_name) out.
Proof.
  intros Hacc. unfold scrape_rows.
  destruct (for_each (scrape_row idx award_name) (0, acc) rows) as [st|] eqn:E;
    simpl; [|discriminate].
  intros [= <-].
  apply (for_each_inv (scrape_row idx award_name)
           (fun st => 0 <= fst st /\ Forall (fresh award_name) (snd st)))
    in E; [apply E| |simpl; split; [lia|assumption]].
  intros [cy a] r st' [Hcy Ha] R. simpl in Hcy, Ha.
  apply scrape_row_spec in R as (recs & -> & Hrecs). simpl.
  split; [now apply next_year_nonneg|].
  apply Forall_app. split; [assumption|].
  destruct Hrecs as [->| ->]; [constructor|].
  apply row_entries_fresh. now apply next_year_nonneg.
Qed.

(** A table that is not skipped is the loop over its body rows, entered
    with [current_year = 0]. *)
Lemma scrape_table_rows (award_name : string) (award_novels : list novel)
    (header : row) (body : list row) (year_col_index : nat) :
  in_list "year" (map str_lower (cells header)) &&
    in_list "year awarded" (map str_lower (cells header)) = false ->
  find_year_col 0 (cells header) = Some year_col_index ->
  scrape_table award_name award_novels (header :: body) =
  scrape_rows year_col_index award_name award_novels body.
Proof. intros Hretro Hcol. unfold scrape_table. now rewrite Hretro, Hcol. Qed.

Lemma scrape_table_fresh (award_name : string) (rows : table)
    (acc out : list novel) :
  Forall (fresh award_name) acc ->
  scrape_table award_name acc rows = Ok out ->
  Forall (fresh award_name) out.
Proof.
  intros Hacc. unfold scrape_table. destruct rows as [|header body].
  - now intros [= <-].
  - destruct (in_list "year" (map str_lower (cells header)) &&
              in_list "year awarded" (map str_lower (cells header))).
    + now intros [= <-].
    + destruct (find_year_col 0 (cells header)) as [idx|].
      * now apply scrape_rows_fresh.
      * now intros [= <-].
Qed.

Lemma scrape_award_novels_fresh (resp : response) (award_name : string)
    (l : list novel) :
  scrape_award_novels resp award_name = Ok l -> Forall (fresh award_name) l.
Proof.
  unfold scrape_award_novels. destruct resp as [|tables]; [discriminate|].
  apply (for_each_inv (scrape_table award_name) (Forall (fresh award_name)));
    [|constructor].
  intros acc rows out Hacc. now apply scrape_table_fresh.
Qed.

(** What the command writes: the merge of the two collected lists into the
    list loaded from the file. *)
Lemma scrape_saves (after : Z) (hugo_resp nebula_resp : response) (f f' : file) :
  scrape after hugo_resp nebula_resp f = Ok f' ->
  exists hugo_data nebula_data,
    scrape_award_novels hugo_resp "Hugo" = Ok hugo_data /\
    scrape_award_novels nebula_resp "Nebula" = Ok nebula_data /\
    f' = Some (scrape_merge after hugo_data nebula_data (load_novels_from_json f)).
Proof.
  unfold scrape.
  destruct (scrape_award_novels hugo_resp "Hugo") as [hugo_data|]; [|discriminate].
  destruct (scrape_award_novels nebula_resp "Nebula") as [nebula_data|];
    [|discriminate].
  simpl. intros [= <-]. now exists hugo_data, nebula_data.
Qed.

End CollectorFacts.

Section CollectorClaims.
Context `{PyStr}.

(** C6.  Every record in the list [scrape_award_novels(url, award_name)]
    returns has [award] equal to [award_name], a non-empty title, a year
    that is a (positive) integer, [pov] null and [read] false. *)
Theorem collected_entries_are_fresh (resp : response) (award_name : string)
    (l : list novel) :
  scrape_award_novels resp award_name = Ok l ->
  Forall (fun n => award n = award_name /\ title n <> "" /\ 0 < year n /\
                   pov n = VNull /\ read n = VBool false) l.
Proof. apply scrape_award_novels_fresh. Qed.

(** C7.  Row-span carry-forward.  In the loop over the body rows of one
    table, take a row whose year cell gives no year (the cell is absent, or
    is skipped as a retro cell, or its first word parses to no positive
    integer).  The row leaves the carried year as it was, and the entries
    the row appends all have the most recent year parsed in an earlier row
    of the table; when no earlier row gave a year, the row appends
    nothing. *)
Theorem year_is_carried_forward (year_col_index : nat) (award_name : string)
    (award_novels : list novel) (earlier : list row) (r : row)
    (later : list row) (out : list novel) :
  scrape_rows year_col_index award_name award_novels (earlier ++ r :: later)
    = Ok out ->
  parsed_year year_col_index r = None ->
  exists current_year before recs st,
    for_each (scrape_row year_col_index award_name) (0, award_novels) earlier
      = Ok (current_year, before) /\
    scrape_row year_col_index award_name (current_year, before) r
      = Ok (current_year, (before ++ recs)%list) /\
    for_each (scrape_row year_col_index award_name)
      (current_year, (before ++ recs)%list) later = Ok st /\
    out = snd st /\
    match last_parsed_year year_col_index earlier with
    | Some y => current_year = y /\ Forall (fun n => year n = y) recs
    | None => current_year = 0 /\ recs = []
    end.
Proof.
  intros E P. unfold scrape_rows in E.
  destruct (for_each (scrape_row year_col_index award_name) (0, award_novels)
              (earlier ++ r :: later)) as [st|] eqn:F; simpl in E; [|discriminate].
  injection E as <-.
  apply for_each_app in F as ([cy before] & F1 & F2).
  rewrite for_each_cons in F2.
  destruct (scrape_row year_col_index award_name (cy, before) r) as [st1|] eqn:R;
    [|discriminate].
  pose proof (scrape_row_spec _ _ _ _ _ _ R) as (recs & -> & Hrecs).
  assert (N : next_year year_col_index cy r = cy)
    by (unfold next_year; now rewrite P).
  rewrite N in *.
  exists cy, before, recs, st. repeat split; try assumption.
  pose proof (scrape_rows_year _ _ _ _ _ _ F1) as Y. simpl in Y.
  destruct (last_parsed_year year_col_index earlier) as [y|].
  - split; [assumption|]. subst cy.
    destruct Hrecs as [->| ->]; [constructor|apply row_entries_year].
  - split; [assumption|]. subst cy. destruct Hrecs as [->| ->]; reflexivity.
Qed.

(** C3, as amended.  For a previously persisted record (one record per
    key) whose key matches a newly collected entry, the merged record under
    that key keeps the persisted record's [pov]; there is such a record
    once the year passes the [--after] filter. *)
Theorem scrape_keeps_persisted_pov
    (after : Z) (hugo_resp nebula_resp : response)
    (hugo_data nebula_data existing_data : list novel) (p e : novel) :
  scrape_award_novels hugo_resp "Hugo" = Ok hugo_data ->
  scrape_award_novels nebula_resp "Nebula" = Ok nebula_data ->
  unique_keys existing_data -> In p existing_data ->
  In e (hugo_data ++ nebula_data) -> key_of e = key_of p ->
  (forall r, In r (scrape_merge after hugo_data nebula_data existing_data) ->
             key_of r = key_of p -> pov r = pov p) /\
  (after <= year p ->
   exists r, In r (scrape_merge after hugo_data nebula_data existing_data) /\
             key_of r = key_of p /\ pov r = pov p).
Proof.
  intros Hh Hn U Hp _ _.
  destruct (merged_pov after hugo_data nebula_data existing_data p U Hp) as [A B].
  - right. apply Forall_app. split.
    + eapply List.Forall_impl; [|apply (scrape_award_novels_fresh _ _ _ Hh)].
      intros n Fn. apply Fn.
    + eapply List.Forall_impl; [|apply (scrape_award_novels_fresh _ _ _ Hn)].
      intros n Fn. apply Fn.
  - split; [assumption|]. intros Hy. destruct (B Hy) as (r & Hr & Kr).
    exists r. auto.
Qed.

End CollectorClaims.

(** ** The merger and the annotator keep records well typed *)

Lemma fresh_well_typed (award_name : string) (n : novel) :
  fresh award_name n -> well_typed n.
Proof.
  intros (_ & _ & _ & Hp & Hr). split; [now left|now exists false].
Qed.

Lemma merge_loop_well_typed (l : list novel) (d : dict) :
  Forall well_typed l -> Forall well_typed (dict_values d) ->
  Forall well_typed (dict_values (fold_left merge_item l d)).
Proof.
  intros Hl Hd.
  apply (fold_left_inv _ (fun d => Forall well_typed (dict_values d)));
    [assumption|].
  intros d' x Hd' Hx.
  destruct (merge_item_set d' x) as (x' & -> & _ & _ & Hr & M).
  apply dict_set_values; [|assumption].
  rewrite List.Forall_forall in Hl. specialize (Hl x Hx).
  destruct (dict_get (key_of x) d') as [old|] eqn:G; [|now subst].
  destruct M as [Mp _]. destruct Hl as [Lp Lr].
  split; [|now rewrite Hr]. rewrite Mp.
  destruct (is_not_none (pov old)); [|assumption].
  apply dict_get_value in G. rewrite List.Forall_forall in Hd'. apply (Hd' old G).
Qed.

Lemma scrape_merge_well_typed
    (after : Z) (hugo_data nebula_data existing_data : list novel) :
  Forall well_typed hugo_data -> Forall well_typed nebula_data ->
  Forall well_typed existing_data ->
  Forall well_typed (scrape_merge after hugo_data nebula_data existing_data).
Proof.
  intros Hh Hn He. rewrite scrape_merge_map.
  eapply Permutation_Forall; [symmetry; apply stable_sort_perm|].
  assert (Filt : forall l, Forall well_typed l ->
                           Forall well_typed (year_filter after l)).
  { intros l Hl. apply List.Forall_forall. intros n Hin.
    apply year_filter_In in Hin as [Hin _].
    rewrite List.Forall_forall in Hl. now apply Hl. }
  apply merge_loop_well_typed.
  - apply Filt. apply Forall_app. now split.
  - apply index_existing_values. now apply Filt.
Qed.

Lemma pov_of_input_valid (pov_input p : string) :
  pov_of_input pov_input = Some p -> In p ["first"; "second"; "third"].
Proof.
  unfold pov_of_input.
  destruct (String.eqb pov_input "1"); [intros [= <-]; simpl; auto|].
  destruct (String.eqb pov_input "2"); [intros [= <-]; simpl; auto|].
  destruct (String.eqb pov_input "3"); [intros [= <-]; simpl; auto|].
  discriminate.
Qed.

Lemma assign_well_typed (p : string) (is_read : bool) (n : novel) :
  In p ["first"; "second"; "third"] -> well_typed (assign p is_read n).
Proof.
  intros Hp. split; simpl; [|now exists is_read].
  unfold valid_pov. simpl in Hp.
  destruct Hp as [<-|[<-|[<-|[]]]]; auto.
Qed.

Lemma alter_assign_well_typed (p : string) (is_read : bool) (idx : nat)
    (l : list novel) :
  In p ["first"; "second"; "third"] ->
  Forall well_typed l -> Forall well_typed (alter (assign p is_read) idx l).
Proof.
  intros Hp Hl. apply Forall_alter; [assumption|].
  intros n _ _. now apply assign_well_typed.
Qed.

Lemma unannotated_valid_pov (v : value) :
  valid_pov v -> truthy v = false -> v = VNull.
Proof.
  intros [->|[->|[->| ->]]]; simpl; [reflexivity|discriminate..].
Qed.

Lemma next_unprocessed_found (l : list novel) :
  forall i j,
    next_unprocessed i l = Some j ->
    exists n, (i <= j)%nat /\ l !! (j - i)%nat = Some n /\ truthy (pov n) = false.
Proof.
  induction l as [|x l IH]; simpl; intros i j E; [discriminate|].
  destruct (truthy (pov x)) eqn:T; simpl in E.
  - apply IH in E as (n & Hij & Hn & Tn). exists n.
    split; [lia|]. split; [|assumption].
    replace (j - i)%nat with (S (j - S i)) by lia. exact Hn.
  - injection E as <-. exists x. rewrite Nat.sub_diag. auto.
Qed.

Section AnnotatorFacts.
Context `{PyStr}.

Lemma prompt_loop_cons (reply : string) (inputs : list string)
    (all_novels : list novel) (idx : nat) (f : file) (tr : list event) :
  prompt_loop (reply :: inputs) all_novels idx f tr =
  let user_input := str_lower (str_strip reply) in
  if in_list user_input ["quit"; "exit"] then mkRun tr f (Ok tt)
  else
    match pov_of_input (remove_r user_input) with
    | Some p =>
        let saved := alter (assign p (contains "r" user_input)) idx all_novels in
        match next_unprocessed 0 saved with
        | None => mkRun (tr ++ [Saved saved]) (save_novels_to_json saved) (Ok tt)
        | Some idx' =>
            match saved !! idx' with
            | None =>
                mkRun (tr ++ [Saved saved]) (save_novels_to_json saved)
                  (Raise IndexError)
            | Some n =>
                prompt_loop inputs saved idx' (save_novels_to_json saved)
                  ((tr ++ [Saved saved]) ++ [Processing idx' n])
            end
        end
    | None => prompt_loop inputs all_novels idx f tr
    end.
Proof. reflexivity. Qed.

(** A run entered with the entry at [idx] announced: its events extend the
    events so far by a well-shaped log, the file follows the writes, and
    every list written is well typed when the collection is. *)
Lemma prompt_loop_run (inputs : list string) :
  forall all_novels idx n f tr,
    all_novels !! idx = Some n ->
    truthy (pov n) = false ->
    exists tail,
      trace (prompt_loop inputs all_novels idx f tr) = (tr ++ tail)%list /\
      annotation_log all_novels (Processing idx n :: tail) /\
      disk (prompt_loop inputs all_novels idx f tr) = file_after f tail /\
      (Forall well_typed all_novels ->
       forall l, In (Saved l) tail -> Forall well_typed l).
Proof.
  induction inputs as [|reply inputs IH]; intros all_novels idx n f tr Hn Tn.
  - exists []. simpl. rewrite app_nil_r.
    repeat split; [now apply log_waiting|]. intros _ l [].
  - rewrite prompt_loop_cons. cbv zeta.
    destruct (in_list (str_lower (str_strip reply)) ["quit"; "exit"]).
    { exists []. simpl. rewrite app_nil_r.
      repeat split; [now apply log_waiting|]. intros _ l []. }
    destruct (pov_of_input (remove_r (str_lower (str_strip reply))))
      as [p|] eqn:P; [|now apply IH].
    apply pov_of_input_valid in P.
    set (is_read := contains "r" (str_lower (str_strip reply))).
    set (saved := alter (assign p is_read) idx all_novels).
    assert (W : Forall well_typed all_novels -> Forall well_typed saved)
      by (now apply alter_assign_well_typed).
    destruct (next_unprocessed 0 saved) as [idx'|] eqn:Nx.
    + apply next_unprocessed_found in Nx as (n' & _ & Hn' & Tn').
      rewrite Nat.sub_0_r in Hn'. rewrite Hn'.
      destruct (IH saved idx' n' (save_novels_to_json saved)
                  ((tr ++ [Saved saved]) ++ [Processing idx' n'])%list Hn' Tn')
        as (tail & Etr & Log & Edisk & Wt).
      exists (Saved saved :: Processing idx' n' :: tail).
      split; [rewrite Etr; now rewrite <- !app_assoc|].
      split; [now apply log_annotated|].
      split; [rewrite Edisk; reflexivity|].
      intros Wl l [[= <-]|[[=]|Hl]]; [now apply W|apply Wt; auto].
    + exists [Saved saved]. simpl.
      repeat split; [apply log_annotated; auto; apply log_end|].
      intros Wl l [[= <-]|[]]. now apply W.
Qed.

End AnnotatorFacts.

Lemma annotation_log_prompted (all_novels : list novel) (tr : list event) :
  annotation_log all_novels tr ->
  Forall well_typed all_novels ->
  forall idx n, In (Processing idx n) tr -> pov n = VNull.
Proof.
  induction 1 as [l|l i m Hm Tm|l i m p b rest Hm Tm Hp Hlog IH];
    intros Wl idx n Hin.
  - destruct Hin.
  - destruct Hin as [[= <- <-]|[]].
    apply unannotated_valid_pov; [|assumption].
    apply (Forall_lookup_1 _ _ _ _ Wl Hm).
  - destruct Hin as [[= <- <-]|[[=]|Hin]].
    + apply unannotated_valid_pov; [|assumption].
      apply (Forall_lookup_1 _ _ _ _ Wl Hm).
    + apply (IH (alter_assign_well_typed p b i l Hp Wl) idx n Hin).
Qed.

Lemma file_after_cases (tr : list event) :
  forall f,
    file_after f tr = f \/
    exists l, In (Saved l) tr /\ file_after f tr = Some l.
Proof.
  unfold file_after.
  induction tr as [|e tr IH]; intros f; simpl; [now left|].
  destruct e as [idx n|l].
  - destruct (IH f) as [E|(l & Hl & E)]; [now left|right; eauto].
  - right. destruct (IH (save_novels_to_json l)) as [E|(l' & Hl & E)]; eauto.
Qed.

Section AnnotatorClaims.
Context `{PyStr}.

(** The whole command, from the sorted collection. *)
Lemma process_run (inputs : list string) (f : file) :
  exists tail,
    trace (process inputs f) = tail /\
    annotation_log (stable_sort year_desc_leb (load_novels_from_json f)) tail /\
    disk (process inputs f) = file_after f tail /\
    (Forall well_typed (load_novels_from_json f) ->
     forall l, In (Saved l) tail -> Forall well_typed l).
Proof.
  unfold process. destruct (load_novels_from_json f) as [|x l] eqn:L.
  { exists []. repeat split; [apply log_end|]. intros _ l []. }
  set (all_novels := stable_sort year_desc_leb (x :: l)).
  destruct (next_unprocessed 0 all_novels) as [idx|] eqn:Nx.
  - apply next_unprocessed_found in Nx as (n & _ & Hn & Tn).
    rewrite Nat.sub_0_r in Hn. rewrite Hn.
    destruct (prompt_loop_run inputs all_novels idx n f [Processing idx n] Hn Tn)
      as (tail & Etr & Log & Edisk & Wt).
    exists (Processing idx n :: tail).
    split; [exact Etr|]. split; [exact Log|]. split; [exact Edisk|].
    intros Wl l' [[=]|Hl']. apply Wt; [|assumption].
    eapply Permutation_Forall; [symmetry; apply stable_sort_perm|exact Wl].
  - exists []. repeat split; [apply log_end|]. intros _ l' [].
Qed.

(** C8.  [pov] null or one of "first", "second", "third", and [read] a
    boolean: the collector creates records that satisfy this, the merger
    saves a list that satisfies it when the collected entries and the
    persisted list do, and the annotator, started on such a file, writes
    only such lists and leaves such a file. *)
Theorem well_typed_is_preserved :
  (forall resp award_name l,
      scrape_award_novels resp award_name = Ok l -> Forall well_typed l) /\
  (forall after hugo_data nebula_data existing_data,
      Forall well_typed hugo_data -> Forall well_typed nebula_data ->
      Forall well_typed existing_data ->
      Forall well_typed (scrape_merge after hugo_data nebula_data existing_data)) /\
  (forall inputs f,
      Forall well_typed (load_novels_from_json f) ->
      (forall l, In (Saved l) (trace (process inputs f)) -> Forall well_typed l) /\
      Forall well_typed (load_novels_from_json (disk (process inputs f)))).
Proof.
  split; [|split].
  - intros resp award_name l E.
    eapply List.Forall_impl; [|apply (scrape_award_novels_fresh _ _ _ E)].
    intros n. apply fresh_well_typed.
  - apply scrape_merge_well_typed.
  - intros inputs f Wf.
    destruct (process_run inputs f) as (tail & -> & _ & -> & Wt).
    split; [now apply Wt|].
    destruct (file_after_cases tail f) as [-> |(l & Hl & ->)]; [assumption|].
    simpl. now apply Wt.
Qed.

End AnnotatorClaims.

(** ** Award labels *)

Lemma sorted_pair (a b : string) :
  sorted [a; b] = if String.leb a b then [a; b] else [b; a].
Proof. reflexivity. Qed.

(** Two records under one key whose awards are two different plain labels:
    the merge stores the two labels in order, joined by a pipe. *)
Lemma merge_item_joins_two_awards (d : dict) (item old : novel) :
  dict_get (key_of item) d = Some old ->
  award item <> award old ->
  exists item',
    dict_get (key_of item) (merge_item d item) = Some item' /\
    award item' =
      if String.leb (award item) (award old)
      then award item ++ "|" ++ award old
      else award old ++ "|" ++ award item.
Proof.
  intros G N. destruct (merge_item_set d item) as (x' & -> & _ & _ & _ & M).
  rewrite G in M. destruct M as [_ Ma].
  exists x'. split; [apply dict_get_set_same|]. rewrite Ma.
  apply String.eqb_neq in N. rewrite N. simpl. rewrite sorted_pair.
  now destruct (String.leb (award item) (award old)).
Qed.

(** C1.  Running [scrape] on the same two pages twice.  The first run, with
    no file, stores the novel that is on both pages under "Hugo|Nebula".
    The second run merges the labels "Hugo" and "Nebula" into that stored
    string again and saves "Hugo|Hugo|Nebula|Nebula": a label is repeated,
    so the saved award is not a union of labels. *)
Theorem rescrape_repeats_award_labels :
  @scrape ascii_builtins 1990 hugo_page nebula_page None =
    Ok (Some [fire_upon_the_deep; doomsday "Hugo|Nebula" VNull (VBool false)]) /\
  @scrape ascii_builtins 1990 hugo_page nebula_page
      (Some [fire_upon_the_deep; doomsday "Hugo|Nebula" VNull (VBool false)]) =
    Ok (Some [fire_upon_the_deep;
              doomsday "Hugo|Hugo|Nebula|Nebula" VNull (VBool false)]).
Proof. split; vm_compute; reflexivity. Qed.

(** The loop of [merge_award_entries] joins in the same way. *)
Example merge_award_map_repeats_label :
  dict_values
    (merge_award_map
       [doomsday "Hugo|Nebula" VNull (VBool false);
        doomsday "Hugo" VNull (VBool false)])
  = [doomsday "Hugo|Hugo|Nebula" VNull (VBool false)].
Proof. vm_compute. reflexivity. Qed.

(** ** Where the merge departs from the specification's wording *)

(** C2, counterexample.  With the default [--after 1990], a persisted record
    of 1966 is in the file before [scrape] and under no key after it. *)
Lemma scrape_drops_records_before_after :
  In dune (load_novels_from_json (Some [dune])) /\
  exists saved,
    @scrape ascii_builtins 1990 hugo_page nebula_page (Some [dune])
      = Ok (Some saved) /\
    forall r, In r saved -> key_of r <> key_of dune.
Proof.
  split; [simpl; auto|].
  eexists. split; [vm_compute; reflexivity|].
  intros r [<-|[<-|[]]]; vm_compute; discriminate.
Qed.

(** C3, counterexample.  A persisted record marked as read, whose key
    matches a newly collected entry: the merged record under that key is the
    collected entry, with [read] false. *)
Lemma scrape_resets_read :
  exists hugo_data nebula_data e r,
    @scrape_award_novels ascii_builtins hugo_page "Hugo" = Ok hugo_data /\
    @scrape_award_novels ascii_builtins nebula_page "Nebula" = Ok nebula_data /\
    In e (hugo_data ++ nebula_data) /\
    key_of e = key_of (doomsday "Hugo|Nebula" (VStr "third") (VBool true)) /\
    In r (scrape_merge 1990 hugo_data nebula_data
            [doomsday "Hugo|Nebula" (VStr "third") (VBool true)]) /\
    key_of r = key_of (doomsday "Hugo|Nebula" (VStr "third") (VBool true)) /\
    pov r = VStr "third" /\
    read (doomsday "Hugo|Nebula" (VStr "third") (VBool true)) = VBool true /\
    read r = VBool false.
Proof.
  exists [doomsday "Hugo" VNull (VBool false); fire_upon_the_deep],
         [doomsday "Nebula" VNull (VBool false)],
         (doomsday "Hugo" VNull (VBool false)),
         (doomsday "Hugo|Hugo|Nebula|Nebula" (VStr "third") (VBool false)).
  repeat split; try (vm_compute; reflexivity).
  - simpl. auto.
  - vm_compute. auto.
Qed.

(** ** The theorems at work on the sample pages *)

Lemma merge_keeps_existing_pov_witness :
  exists r,
    In r (scrape_merge 1990 [doomsday "Hugo" VNull (VBool false)] []
            [doomsday "Hugo" (VStr "third") (VBool true)]) /\
    key_of r = key_of (doomsday "Hugo" (VStr "third") (VBool true)) /\
    pov r = VStr "third".
Proof.
  apply (merge_keeps_existing_pov 1990
           [doomsday "Hugo" VNull (VBool false)] []
           [doomsday "Hugo" (VStr "third") (VBool true)]
           (doomsday "Hugo" (VStr "third") (VBool true))
           (doomsday "Hugo" VNull (VBool false))).
  - unfold unique_keys. simpl. apply NoDup_singleton.
  - simpl. left. reflexivity.
  - simpl. discriminate.
  - simpl. left. reflexivity.
  - reflexivity.
  - simpl. lia.
Defined.

Lemma collected_entries_are_fresh_witness :
  Forall (fun n => award n = "Hugo" /\ title n <> "" /\ 0 < year n /\
                   pov n = VNull /\ read n = VBool false)
    [doomsday "Hugo" VNull (VBool false); fire_upon_the_deep].
Proof.
  apply (@collected_entries_are_fresh ascii_builtins hugo_page "Hugo").
  vm_compute. reflexivity.
Defined.

Lemma year_is_carried_forward_witness :
  exists current_year before recs st,
    for_each (@scrape_row ascii_builtins 0 "Hugo") (0, [])
      [mkRow ["1993"; "Connie Willis*"; "Doomsday Book"; "Bantam Spectra"]
             ["Doomsday Book"]]
      = Ok (current_year, before) /\
    @scrape_row ascii_builtins 0 "Hugo" (current_year, before)
      (mkRow ["Vernor Vinge*"; "A Fire Upon the Deep"; "Tor Books"]
             ["A Fire Upon the Deep"])
      = Ok (current_year, (before ++ recs)%list) /\
    for_each (@scrape_row ascii_builtins 0 "Hugo")
      (current_year, (before ++ recs)%list) [] = Ok st /\
    [doomsday "Hugo" VNull (VBool false); fire_upon_the_deep] = snd st /\
    match @last_parsed_year ascii_builtins 0
            [mkRow ["1993"; "Connie Willis*"; "Doomsday Book"; "Bantam Spectra"]
                   ["Doomsday Book"]] with
    | Some y => current_year = y /\ Forall (fun n => year n = y) recs
    | None => current_year = 0 /\ recs = []
    end.
Proof.
  apply (@year_is_carried_forward ascii_builtins 0 "Hugo" []
           [mkRow ["1993"; "Connie Willis*"; "Doomsday Book"; "Bantam Spectra"]
                  ["Doomsday Book"]]
           (mkRow ["Vernor Vinge*"; "A Fire Upon the Deep"; "Tor Books"]
                  ["A Fire Upon the Deep"])
           []).
  - vm_compute. reflexivity.
  - vm_compute. reflexivity.
Defined.

Lemma scrape_keeps_persisted_pov_witness :
  exists r,
    In r (scrape_merge 1990
            [doomsday "Hugo" VNull (VBool false); fire_upon_the_deep]
            [doomsday "Nebula" VNull (VBool false)]
            [doomsday "Hugo|Nebula" (VStr "third") (VBool true)]) /\
    key_of r = key_of (doomsday "Hugo|Nebula" (VStr "third") (VBool true)) /\
    pov r = VStr "third".
Proof.
  apply (@scrape_keeps_persisted_pov ascii_builtins 1990 hugo_page nebula_page
           [doomsday "Hugo" VNull (VBool false); fire_upon_the_deep]
           [doomsday "Nebula" VNull (VBool false)]
           [doomsday "Hugo|Nebula" (VStr "third") (VBool true)]
           (doomsday "Hugo|Nebula" (VStr "third") (VBool true))
           (doomsday "Hugo" VNull (VBool false))).
  - vm_compute. reflexivity.
  - vm_compute. reflexivity.
  - unfold unique_keys. simpl. apply NoDup_singleton.
  - simpl. left. reflexivity.
  - simpl. left. reflexivity.
  - reflexivity.
  - simpl. lia.
Defined.

Lemma well_typed_doomsday : well_typed (doomsday "Hugo" VNull (VBool false)).
Proof. split; [left; reflexivity|exists false; reflexivity]. Defined.

Lemma well_typed_fire_upon_the_deep : well_typed fire_upon_the_deep.
Proof. split; [left; reflexivity|exists false; reflexivity]. Defined.

Lemma well_typed_is_preserved_witness :
  Forall well_typed [doomsday "Hugo" VNull (VBool false); fire_upon_the_deep] /\
  Forall well_typed
    (scrape_merge 1990 [doomsday "Hugo" VNull (VBool false)] []
       [fire_upon_the_deep]) /\
  Forall well_typed
    (load_novels_from_json
       (disk (@process ascii_builtins ["3r"; "quit"] (Some [fire_upon_the_deep])))).
Proof.
  destruct (@well_typed_is_preserved ascii_builtins) as (Collect & Merge & Annotate).
  split; [|split].
  - apply (Collect hugo_page "Hugo"). vm_compute. reflexivity.
  - apply Merge.
    + constructor; [apply well_typed_doomsday|constructor].
    + constructor.
    + constructor; [apply well_typed_fire_upon_the_deep|constructor].
  - apply Annotate. simpl.
    constructor; [apply well_typed_fire_upon_the_deep|constructor].
Defined.

(** ** More on the merger: which keys are saved, and which records are
    saved as they were *)

Lemma dict_get_set_some (k k' : key) (v : novel) (d : dict) :
  dict_get k (dict_set k' v d) <> None <-> k = k' \/ dict_get k d <> None.
Proof.
  rewrite dict_get_set. destruct (key_eqb k k') eqn:E.
  - apply key_eqb_eq in E. split; [now left|discriminate].
  - apply key_eqb_neq in E. tauto.
Qed.

Lemma index_fold_keys (k : key) (l : list novel) :
  forall d,
    dict_get k (fold_left (fun m item => dict_set (key_of item) item m) l d)
      <> None <->
    In k (map key_of l) \/ dict_get k d <> None.
Proof.
  induction l as [|x l IH]; simpl; intros d; [tauto|].
  rewrite IH, dict_get_set_some. intuition congruence.
Qed.

Lemma merge_loop_keys (k : key) (l : list novel) :
  forall d,
    dict_get k (fold_left merge_item l d) <> None <->
    In k (map key_of l) \/ dict_get k d <> None.
Proof.
  induction l as [|x l IH]; simpl; intros d; [tauto|].
  destruct (merge_item_key d x) as (x' & -> & _).
  rewrite IH, dict_get_set_some. intuition congruence.
Qed.

Lemma merge_loop_other (k : key) (l : list novel) :
  forall d,
    (forall e, In e l -> key_of e <> k) ->
    dict_get k (fold_left merge_item l d) = dict_get k d.
Proof.
  induction l as [|x l IH]; simpl; intros d N; [reflexivity|].
  rewrite IH by auto. destruct (merge_item_key d x) as (x' & -> & _).
  apply dict_get_set_other. intros E. now apply (N x); auto.
Qed.

Lemma merge_item_fresh_key (d : dict) (item : novel) :
  dict_get (key_of item) d = None ->
  dict_get (key_of item) (merge_item d item) = Some item.
Proof.
  intros G. unfold merge_item. rewrite G. apply dict_get_set_same.
Qed.

Lemma year_filter_app (after : Z) (l1 l2 : list novel) :
  year_filter after (l1 ++ l2) = (year_filter after l1 ++ year_filter after l2)%list.
Proof. unfold year_filter. apply List.filter_app. Qed.

Lemma year_filter_cons_in (after : Z) (x : novel) (l : list novel) :
  after <= year x -> year_filter after (x :: l) = x :: year_filter after l.
Proof.
  intros Hy. unfold year_filter. simpl.
  apply Z.leb_le in Hy. now rewrite Hy.
Qed.

Lemma year_filter_keys (after : Z) (k : key) (l : list novel) :
  In k (map key_of (year_filter after l)) <->
  exists x, In x l /\ key_of x = k /\ after <= year x.
Proof.
  rewrite in_map_iff. split.
  - intros (x & E & Hx). apply year_filter_In in Hx as [Hx Hy]. eauto.
  - intros (x & Hx & E & Hy). exists x. split; [assumption|].
    now apply year_filter_In.
Qed.

Lemma year_filter_no_key (after : Z) (k : key) (l : list novel) :
  (forall x, In x l -> key_of x <> k) ->
  forall x, In x (year_filter after l) -> key_of x <> k.
Proof. intros N x Hx. apply year_filter_In in Hx as [Hx _]. now apply N. Qed.

Lemma merged_map_has (after : Z) (hugo_data nebula_data existing_data : list novel)
    (k : key) :
  dict_get k (merged_map after hugo_data nebula_data existing_data) <> None <->
  exists r, In r (scrape_merge after hugo_data nebula_data existing_data) /\
            key_of r = k.
Proof.
  split.
  - intros G.
    destruct (dict_get k (merged_map after hugo_data nebula_data existing_data))
      as [v|] eqn:E; [|congruence].
    pose proof (dict_get_key _ _ _ (merged_map_ok _ _ _ _) E) as K.
    exists v. split; [|assumption]. apply scrape_merge_In. now rewrite K.
  - intros (r & Hr & <-). apply scrape_merge_In in Hr. congruence.
Qed.

(** X1.  The keys of the saved list are exactly the keys of the persisted
    and collected records that pass the year filter: none is lost, none is
    made up. *)
Theorem scrape_saves_exactly_the_filtered_keys
    (after : Z) (hugo_data nebula_data existing_data : list novel) (k : key) :
  (exists r, In r (scrape_merge after hugo_data nebula_data existing_data) /\
             key_of r = k) <->
  (exists x, In x (existing_data ++ hugo_data ++ nebula_data) /\
             key_of x = k /\ after <= year x).
Proof.
  rewrite <- merged_map_has. unfold merged_map, index_existing.
  rewrite merge_loop_keys, index_fold_keys, !year_filter_keys. simpl.
  split.
  - intros [(x & Hx & E & Hy)|[(x & Hx & E & Hy)|N]]; [| |congruence];
      exists x; repeat split; try assumption; apply in_app_iff; auto.
  - intros (x & Hx & E & Hy). apply in_app_iff in Hx as [Hx|Hx].
    + right. left. eauto.
    + left. eauto.
Qed.

(** X2.  Of the persisted records under one key, the last one stands for the
    key.  When no collected entry has that key and the year passes the
    filter, that record is saved exactly as it was, and no other persisted
    record with the key is saved. *)
Theorem scrape_keeps_last_unmatched_record
    (after : Z) (hugo_data nebula_data l1 l2 : list novel) (p : novel) :
  (forall q, In q l2 -> key_of q <> key_of p) ->
  (forall e, In e (hugo_data ++ nebula_data) -> key_of e <> key_of p) ->
  after <= year p ->
  In p (scrape_merge after hugo_data nebula_data (l1 ++ p :: l2)) /\
  (forall q, In q (scrape_merge after hugo_data nebula_data (l1 ++ p :: l2)) ->
             key_of q = key_of p -> q = p).
Proof.
  intros N2 Nnew Hy.
  assert (G : dict_get (key_of p)
                (merged_map after hugo_data nebula_data (l1 ++ p :: l2)) = Some p).
  { unfold merged_map, index_existing.
    rewrite merge_loop_other by (now apply year_filter_no_key).
    rewrite year_filter_app, year_filter_cons_in by assumption.
    rewrite fold_left_app. simpl. rewrite index_fold_other.
    - apply dict_get_set_same.
    - intros Hin. apply in_map_iff in Hin as (x & E & Hx).
      now apply (year_filter_no_key after (key_of p) l2 N2 x). }
  split.
  - now apply scrape_merge_In.
  - intros q Hq Kq. apply scrape_merge_In in Hq. rewrite Kq in Hq. congruence.
Qed.

(** X3.  A collected entry whose key is under no persisted record and under
    no other collected entry is saved exactly as collected, when its year
    passes the filter. *)
Theorem scrape_saves_single_new_entry
    (after : Z) (hugo_data nebula_data existing_data l1 l2 : list novel)
    (e : novel) :
  (forall q, In q existing_data -> key_of q <> key_of e) ->
  (hugo_data ++ nebula_data)%list = (l1 ++ e :: l2)%list ->
  (forall x, In x (l1 ++ l2) -> key_of x <> key_of e) ->
  after <= year e ->
  In e (scrape_merge after hugo_data nebula_data existing_data).
Proof.
  intros Nold Split Nnew Hy. apply scrape_merge_In.
  unfold merged_map. rewrite Split.
  rewrite year_filter_app, year_filter_cons_in by assumption.
  rewrite fold_left_app. simpl.
  rewrite merge_loop_other.
  - apply merge_item_fresh_key. rewrite merge_loop_other.
    + unfold index_existing. rewrite index_fold_other; [reflexivity|].
      intros Hin. apply in_map_iff in Hin as (x & E & Hx).
      now apply (year_filter_no_key after (key_of e) existing_data Nold x).
    + apply year_filter_no_key. intros x Hx. apply Nnew, in_app_iff. auto.
  - apply year_filter_no_key. intros x Hx. apply Nnew, in_app_iff. auto.
Qed.

Lemma merge_loop_read (k : key) (v0 : value) (l : list novel) :
  forall d,
    Forall (fun e => read e = v0) l ->
    In k (map key_of l) \/ (exists v, dict_get k d = Some v /\ read v = v0) ->
    exists v, dict_get k (fold_left merge_item l d) = Some v /\ read v = v0.
Proof.
  induction l as [|x l IH]; simpl; intros d F C.
  - destruct C as [[]|C]. exact C.
  - inversion F as [|? ? Rx F']; subst.
    destruct (merge_item_set d x) as (x' & -> & _ & _ & Hr & _).
    apply IH; [assumption|].
    destruct (key_eqb k (key_of x)) eqn:E.
    + apply key_eqb_eq in E. subst k. right. exists x'.
      split; [apply dict_get_set_same|congruence].
    + apply key_eqb_neq in E. destruct C as [[C|C]|C]; [congruence|now left|].
      right. now rewrite dict_get_set_other.
Qed.

Lemma merge_loop_same_award (k : key) (a : string) (l : list novel) (d : dict) :
  Forall (fun e => award e = a) l ->
  dict_get k d = None \/ (exists v, dict_get k d = Some v /\ award v = a) ->
  dict_get k (fold_left merge_item l d) = None \/
  (exists v, dict_get k (fold_left merge_item l d) = Some v /\ award v = a).
Proof.
  intros F C.
  apply (fold_left_inv _
           (fun d => dict_get k d = None \/
                     (exists v, dict_get k d = Some v /\ award v = a)));
    [assumption|].
  intros d' x C' Hx. rewrite List.Forall_forall in F. specialize (F x Hx).
  destruct (merge_item_set d' x) as (x' & -> & _ & _ & _ & M).
  destruct (key_eqb k (key_of x)) eqn:E.
  - apply key_eqb_eq in E. subst k. right. exists x'.
    split; [apply dict_get_set_same|].
    destruct C' as [G|(v & G & Av)]; rewrite G in M.
    + now subst x'.
    + destruct M as [_ Ma]. rewrite Ma, F, Av. now rewrite String.eqb_refl.
  - apply key_eqb_neq in E. now rewrite dict_get_set_other.
Qed.

Lemma dict_set_absent (k : key) (v : novel) (d : dict) :
  dict_get k d = None -> dict_set k v d = (d ++ [(k, v)])%list.
Proof.
  induction d as [|[k0 v0] d IH]; simpl; [reflexivity|].
  destruct (key_eqb k k0); [discriminate|]. intros G. now rewrite IH.
Qed.

Lemma index_fold_values (l : list novel) :
  forall d,
    unique_keys l ->
    (forall x, In x l -> dict_get (key_of x) d = None) ->
    dict_values (fold_left (fun m item => dict_set (key_of item) item m) l d) =
    (dict_values d ++ l)%list.
Proof.
  unfold unique_keys.
  induction l as [|x l IH]; simpl; intros d U N.
  - now rewrite app_nil_r.
  - apply NoDup_cons in U as [Nx U].
    rewrite IH; [| assumption |].
    + rewrite dict_set_absent by auto.
      unfold dict_values. rewrite map_app, <- app_assoc. reflexivity.
    + intros y Hy. rewrite dict_get_set_other; [auto|].
      intros E. apply Nx. rewrite <- E. apply list_elem_of_In.
      now apply in_map.
Qed.

(** X4.  With nothing collected, [scrape] only filters the persisted list
    (one record per key) by year and sorts it. *)
Theorem scrape_without_entries_filters_and_sorts
    (after : Z) (existing_data : list novel) :
  unique_keys existing_data ->
  scrape_merge after [] [] existing_data =
  stable_sort year_title_leb (year_filter after existing_data).
Proof.
  intros U. rewrite scrape_merge_map. f_equal.
  unfold merged_map, index_existing. simpl.
  now rewrite index_fold_values by (auto using unique_keys_filter).
Qed.

Lemma scrape_without_entries_filters_and_sorts_witness :
  scrape_merge 1990 [] [] [fire_upon_the_deep; dune] =
  stable_sort year_title_leb (year_filter 1990 [fire_upon_the_deep; dune]).
Proof.
  apply (scrape_without_entries_filters_and_sorts 1990 [fire_upon_the_deep; dune]).
  unfold unique_keys. simpl. apply NoDup_cons. split.
  - intros Hin. apply list_elem_of_singleton in Hin. discriminate.
  - apply NoDup_singleton.
Defined.

(** X5.  A novel whose year is at least the [--after] value, collected
    from the Hugo page and, once, from the Nebula page, and not yet in the
    file, is saved with the award "Hugo|Nebula". *)
Theorem first_scrape_joins_hugo_and_nebula
    (after : Z) (hugo_data nebula_data existing_data l1 l2 : list novel)
    (h e : novel) :
  Forall (fun n => award n = "Hugo") hugo_data ->
  (forall q, In q existing_data -> key_of q <> key_of e) ->
  In h hugo_data -> key_of h = key_of e ->
  nebula_data = (l1 ++ e :: l2)%list -> award e = "Nebula" ->
  (forall x, In x (l1 ++ l2) -> key_of x <> key_of e) ->
  after <= year e ->
  exists r, In r (scrape_merge after hugo_data nebula_data existing_data) /\
            key_of r = key_of e /\ award r = "Hugo|Nebula".
Proof.
  intros Fh Nold Hh Kh -> Ae Nn Hy.
  assert (Yh : after <= year h)
    by (unfold key_of in Kh; injection Kh as _ ->; assumption).
  set (d0 := index_existing (year_filter after existing_data)).
  set (d1 := fold_left merge_item (year_filter after hugo_data) d0).
  assert (G0 : dict_get (key_of e) d0 = None).
  { unfold d0, index_existing. rewrite index_fold_other; [reflexivity|].
    intros Hin. apply in_map_iff in Hin as (x & E & Hx).
    now apply (year_filter_no_key after (key_of e) existing_data Nold x). }
  assert (G1 : exists v, dict_get (key_of e) d1 = Some v /\ award v = "Hugo").
  { destruct (merge_loop_same_award (key_of e) "Hugo"
                (year_filter after hugo_data) d0) as [G|G]; auto.
    - apply List.Forall_forall. intros x Hx.
      apply year_filter_In in Hx as [Hx _].
      rewrite List.Forall_forall in Fh. now apply Fh.
    - exfalso. revert G. apply merge_loop_keys. left.
      apply year_filter_keys. exists h. auto. }
  destruct G1 as (v & Gv & Av).
  assert (G : exists r,
             dict_get (key_of e)
               (merged_map after hugo_data (l1 ++ e :: l2) existing_data) = Some r /\
             award r = "Hugo|Nebula").
  { unfold merged_map.
    rewrite !year_filter_app, year_filter_cons_in by assumption.
    rewrite !fold_left_app. fold d0. fold d1. simpl.
    rewrite merge_loop_other
      by (apply year_filter_no_key; intros x Hx; apply Nn, in_app_iff; auto).
    destruct (merge_item_set
                (fold_left merge_item (year_filter after l1) d1) e)
      as (e' & -> & _ & _ & _ & M).
    rewrite merge_loop_other in M
      by (apply year_filter_no_key; intros x Hx; apply Nn, in_app_iff; auto).
    rewrite Gv in M. destruct M as [_ Ma].
    exists e'. split; [apply dict_get_set_same|].
    rewrite Ma, Ae, Av. reflexivity. }
  destruct G as (r & Gr & Ar).
  pose proof (dict_get_key _ _ _ (merged_map_ok _ _ _ _) Gr) as K.
  exists r. repeat split; try assumption.
  apply scrape_merge_In. now rewrite K.
Qed.

Lemma first_scrape_joins_hugo_and_nebula_witness :
  exists r,
    In r (scrape_merge 1990
            [doomsday "Hugo" VNull (VBool false); fire_upon_the_deep]
            [doomsday "Nebula" VNull (VBool false)] [dune]) /\
    key_of r = key_of (doomsday "Nebula" VNull (VBool false)) /\
    award r = "Hugo|Nebula".
Proof.
  apply (first_scrape_joins_hugo_and_nebula 1990
           [doomsday "Hugo" VNull (VBool false); fire_upon_the_deep]
           [doomsday "Nebula" VNull (VBool false)] [dune] [] []
           (doomsday "Hugo" VNull (VBool false))
           (doomsday "Nebula" VNull (VBool false))).
  - repeat constructor.
  - intros q [<-|[]]. discriminate.
  - simpl. left. reflexivity.
  - reflexivity.
  - reflexivity.
  - reflexivity.
  - intros x [].
  - simpl. lia.
Defined.

Lemma scrape_keeps_last_unmatched_record_witness :
  In (doomsday "Hugo" (VStr "first") (VBool true))
    (scrape_merge 1990 [fire_upon_the_deep] []
       ([doomsday "Nebula" VNull (VBool false)] ++
        doomsday "Hugo" (VStr "first") (VBool true) :: [dune])) /\
  (forall q,
      In q (scrape_merge 1990 [fire_upon_the_deep] []
              ([doomsday "Nebula" VNull (VBool false)] ++
               doomsday "Hugo" (VStr "first") (VBool true) :: [dune])) ->
      key_of q = key_of (doomsday "Hugo" (VStr "first") (VBool true)) ->
      q = doomsday "Hugo" (VStr "first") (VBool true)).
Proof.
  apply (scrape_keeps_last_unmatched_record 1990 [fire_upon_the_deep] []
           [doomsday "Nebula" VNull (VBool false)] [dune]
           (doomsday "Hugo" (VStr "first") (VBool true))).
  - intros q [<-|[]]. discriminate.
  - intros e [<-|[]]. discriminate.
  - simpl. lia.
Defined.

Lemma scrape_saves_single_new_entry_witness :
  In fire_upon_the_deep
    (scrape_merge 1990
       [doomsday "Hugo" VNull (VBool false); fire_upon_the_deep] []
       [dune]).
Proof.
  apply (scrape_saves_single_new_entry 1990
           [doomsday "Hugo" VNull (VBool false); fire_upon_the_deep] []
           [dune] [doomsday "Hugo" VNull (VBool false)] [] fire_upon_the_deep).
  - intros q [<-|[]]. discriminate.
  - reflexivity.
  - intros x [<-|[]]. discriminate.
  - simpl. lia.
Defined.

(** ** More on the collector: the year column, skipped tables, errors,
    and where each entry comes from *)

Lemma for_each_app_eq {S A : Type} (body : S -> A -> outcome S) (l1 l2 : list A) :
  forall s,
    for_each body s (l1 ++ l2) =
    match for_each body s l1 with
    | Ok s1 => for_each body s1 l2
    | Raise e => Raise e
    end.
Proof.
  induction l1 as [|x l1 IH]; intros s; [reflexivity|].
  change ((x :: l1) ++ l2)%list with (x :: (l1 ++ l2))%list.
  rewrite !for_each_cons. destruct (body s x) as [s'|]; [apply IH|reflexivity].
Qed.

Section CollectorMore.
Context `{PyStr}.

Lemma find_year_col_shift (cells : list string) :
  forall n, find_year_col (S n) cells = S <$> find_year_col n cells.
Proof.
  induction cells as [|c cells IH]; intros n; simpl; [reflexivity|].
  destruct (contains "year" (str_lower c) && negb (contains "awarded" (str_lower c)));
    [reflexivity|apply IH].
Qed.

(** X6.  The year column is the first header cell whose lower-cased text
    contains "year" and not "awarded"; there is none exactly when no header
    cell is like that. *)
Theorem find_year_col_is_first (header_cells : list string) :
  match find_year_col 0 header_cells with
  | Some i =>
      (exists c, header_cells !! i = Some c /\ is_year_header c = true) /\
      (forall j c, (j < i)%nat -> header_cells !! j = Some c ->
                   is_year_header c = false)
  | None => Forall (fun c => is_year_header c = false) header_cells
  end.
Proof.
  induction header_cells as [|c cells IH]; [constructor|].
  simpl. fold (is_year_header c). destruct (is_year_header c) eqn:E.
  - split; [exists c; auto|]. intros j c' Hj. lia.
  - rewrite find_year_col_shift. destruct (find_year_col 0 cells) as [i|]; simpl.
    + destruct IH as [(c' & Hc' & Ec') First]. split; [exists c'; auto|].
      intros [|j] c'' Hj Hc''; simpl in Hc''; [congruence|].
      apply (First j); [lia|assumption].
    + now constructor.
Qed.

Lemma find_year_col_none (header_cells : list string) :
  Forall (fun c => is_year_header c = false) header_cells ->
  find_year_col 0 header_cells = None.
Proof.
  intros F.
  induction F as [|c cells Hc F IH]; [reflexivity|].
  simpl. fold (is_year_header c). rewrite Hc.
  rewrite find_year_col_shift, IH. reflexivity.
Qed.

(** X7.  A table is skipped, rows and all, when its header has both a
    "year" and a "year awarded" cell, or no year column: nothing is added
    and nothing is raised, whatever the body rows hold. *)
Theorem scrape_table_skips (award_name : string) (award_novels : list novel)
    (header : row) (body : list row) :
  in_list "year" (map str_lower (cells header)) &&
    in_list "year awarded" (map str_lower (cells header)) = true \/
  Forall (fun c => is_year_header c = false) (cells header) ->
  scrape_table award_name award_novels (header :: body) = Ok award_novels.
Proof.
  intros [Retro|NoYear]; unfold scrape_table.
  - now rewrite Retro.
  - rewrite (find_year_col_none _ NoYear).
    now destruct (in_list "year" (map str_lower (cells header)) &&
                  in_list "year awarded" (map str_lower (cells header))).
Qed.

(** One row: whether it raises does not depend on the loop state, and what
    it appends does not depend on the entries gathered so far. *)
Lemma scrape_row_acc (idx : nat) (award_name : string) (cy : Z)
    (acc : list novel) (r : row) :
  scrape_row idx award_name (cy, acc) r =
  match scrape_row idx award_name (cy, []) r with
  | Ok (cy', new) => Ok (cy', (acc ++ new)%list)
  | Raise e => Raise e
  end.
Proof.
  unfold scrape_row. destruct (cells r !! idx) as [c|].
  - destruct (contains "retro" (str_lower c)); [now rewrite app_nil_r|].
    destruct (str_split c) as [|w ws]; [reflexivity|].
    now rewrite !titles_of_row_app.
  - now rewrite !titles_of_row_app.
Qed.

Lemma scrape_row_loop_acc (idx : nat) (award_name : string) (rows : list row) :
  forall cy acc,
    for_each (scrape_row idx award_name) (cy, acc) rows =
    match for_each (scrape_row idx award_name) (cy, []) rows with
    | Ok (cy', new) => Ok (cy', (acc ++ new)%list)
    | Raise e => Raise e
    end.
Proof.
  induction rows as [|r rows IH]; intros cy acc.
  - simpl. now rewrite app_nil_r.
  - rewrite !for_each_cons. rewrite (scrape_row_acc idx award_name cy acc).
    destruct (scrape_row idx award_name (cy, []) r) as [[cy1 new1]|e];
      [|reflexivity].
    rewrite (IH cy1 (acc ++ new1)%list), (IH cy1 new1).
    destruct (for_each (scrape_row idx award_name) (cy1, []) rows)
      as [[cy2 new2]|e]; [|reflexivity].
    now rewrite app_assoc.
Qed.

Lemma scrape_table_acc (award_name : string) (acc : list novel) (rows : table) :
  scrape_table award_name acc rows =
  match scrape_table award_name [] rows with
  | Ok new => Ok (acc ++ new)%list
  | Raise e => Raise e
  end.
Proof.
  unfold scrape_table. destruct rows as [|header body]; [now rewrite app_nil_r|].
  destruct (in_list "year" (map str_lower (cells header)) &&
            in_list "year awarded" (map str_lower (cells header)));
    [now rewrite app_nil_r|].
  destruct (find_year_col 0 (cells header)) as [idx|]; [|now rewrite app_nil_r].
  unfold scrape_rows. rewrite (scrape_row_loop_acc idx award_name body 0 acc).
  now destruct (for_each (scrape_row idx award_name) (0, []) body) as [[cy new]|e].
Qed.

Lemma scrape_tables_acc (award_name : string) (tables : list table) :
  forall acc,
    for_each (scrape_table award_name) acc tables =
    match for_each (scrape_table award_name) [] tables with
    | Ok new => Ok (acc ++ new)%list
    | Raise e => Raise e
    end.
Proof.
  induction tables as [|t tables IH]; intros acc.
  - simpl. now rewrite app_nil_r.
  - rewrite !for_each_cons. rewrite (scrape_table_acc award_name acc).
    destruct (scrape_table award_name [] t) as [new1|e]; [|reflexivity].
    rewrite (IH (acc ++ new1)%list), (IH new1).
    destruct (for_each (scrape_table award_name) [] tables) as [new2|e];
      [|reflexivity].
    now rewrite app_assoc.
Qed.

(** X8.  Tables are collected independently: the entries of a page are the
    entries of its first tables followed by the entries of the remaining
    ones, and the page raises what the first failing part raises. *)
Theorem scrape_award_novels_app (tables1 tables2 : list table)
    (award_name : string) :
  scrape_award_novels (Page (tables1 ++ tables2)) award_name =
  match scrape_award_novels (Page tables1) award_name with
  | Ok out1 =>
      match scrape_award_novels (Page tables2) award_name with
      | Ok out2 => Ok (out1 ++ out2)%list
      | Raise e => Raise e
      end
  | Raise e => Raise e
  end.
Proof.
  unfold scrape_award_novels. rewrite for_each_app_eq.
  destruct (for_each (scrape_table award_name) [] tables1) as [out1|e];
    [|reflexivity].
  apply scrape_tables_acc.
Qed.

End CollectorMore.

Section CollectorErrors.
Context `{PyStr}.

Lemma scrape_row_raises (idx : nat) (award_name : string)
    (st : Z * list novel) (r : row) (e : exn) :
  scrape_row idx award_name st r = Raise e <->
  e = IndexError /\ blank_year_cell idx r.
Proof.
  unfold scrape_row, blank_year_cell. destruct st as [cy acc].
  destruct (cells r !! idx) as [c|].
  - destruct (contains "retro" (str_lower c)) eqn:Retro.
    + split; [discriminate|]. intros (_ & c' & [= <-] & R & _). congruence.
    + destruct (str_split c) as [|w ws] eqn:S.
      * split; [intros [= <-]; eauto|now intros [-> _]].
      * split; [discriminate|]. intros (_ & c' & [= <-] & _ & S'). congruence.
  - split; [discriminate|]. intros (_ & c' & [=] & _).
Qed.

Lemma scrape_row_loop_raises (idx : nat) (award_name : string) (rows : list row)
    (e : exn) :
  forall st,
    for_each (scrape_row idx award_name) st rows = Raise e <->
    e = IndexError /\ exists r, In r rows /\ blank_year_cell idx r.
Proof.
  induction rows as [|r rows IH]; intros st.
  - simpl. split; [discriminate|]. now intros (_ & r & [] & _).
  - rewrite for_each_cons.
    destruct (scrape_row idx award_name st r) as [st'|e'] eqn:R.
    + rewrite IH. split; intros (-> & r' & Hr' & B); split; auto.
      * exists r'. split; [now right|assumption].
      * destruct Hr' as [<-|Hr']; [|eauto].
        exfalso. assert (Raised : scrape_row idx award_name st r = Raise IndexError)
          by (now apply scrape_row_raises).
        congruence.
    + apply scrape_row_raises in R as [-> B]. split.
      * intros [= <-]. split; [reflexivity|]. exists r. split; [now left|assumption].
      * now intros [-> _].
Qed.

(** X9.  The row loop fails only with [IndexError], and exactly when some
    body row has, in the year column, a cell that is not a retro cell and in
    which [split()] finds no word. *)
Theorem scrape_rows_raises (year_col_index : nat) (award_name : string)
    (award_novels : list novel) (body : list row) (e : exn) :
  scrape_rows year_col_index award_name award_novels body = Raise e <->
  e = IndexError /\ exists r, In r body /\ blank_year_cell year_col_index r.
Proof.
  rewrite <- (scrape_row_loop_raises year_col_index award_name body e
                (0, award_novels)).
  unfold scrape_rows.
  destruct (for_each (scrape_row year_col_index award_name) (0, award_novels) body);
    simpl; split; congruence.
Qed.

Lemma last_parsed_year_snoc (idx : nat) (earlier : list row) (r : row) :
  last_parsed_year idx (earlier ++ [r]) =
  match parsed_year idx r with
  | Some y => Some y
  | None => last_parsed_year idx earlier
  end.
Proof.
  induction earlier as [|x earlier IH]; simpl.
  - now destruct (parsed_year idx r).
  - rewrite IH. now destruct (parsed_year idx r).
Qed.

Lemma row_entries_In (award_name : string) (cy : Z) (r : row) (n : novel) :
  In n (row_entries award_name cy r) ->
  cy <> 0 /\ year n = cy /\ award n = award_name /\ In (title n) (i_tags r).
Proof.
  unfold row_entries. destruct (cy =? 0) eqn:E; [intros []|].
  apply Z.eqb_neq in E. intros Hn.
  apply in_map_iff in Hn as (t & <- & Ht). apply filter_In in Ht as [Ht _].
  simpl. auto.
Qed.

Lemma scrape_row_loop_provenance (idx : nat) (award_name : string)
    (rows : list row) :
  forall st,
    for_each (scrape_row idx award_name) (0, []) rows = Ok st ->
    forall n, In n (snd st) ->
      award n = award_name /\
      exists earlier r later,
        rows = (earlier ++ r :: later)%list /\
        In (title n) (i_tags r) /\
        last_parsed_year idx (earlier ++ [r]) = Some (year n).
Proof.
  induction rows as [|r rows IH] using rev_ind; intros st E n Hn.
  - simpl in E. injection E as <-. destruct Hn.
  - apply for_each_app in E as ([cy acc] & E1 & E2).
    rewrite for_each_cons in E2.
    destruct (scrape_row idx award_name (cy, acc) r) as [st1|] eqn:R;
      [|discriminate].
    simpl in E2. injection E2 as <-.
    apply scrape_row_spec in R as (recs & -> & Hrecs). simpl in Hn.
    apply in_app_iff in Hn as [Hn|Hn].
    + destruct (IH _ E1 n Hn) as (An & earlier & r0 & later & -> & Ht & Hy).
      split; [assumption|].
      exists earlier, r0, (later ++ [r])%list.
      rewrite <- app_assoc. auto.
    + destruct Hrecs as [-> | ->]; [destruct Hn|].
      apply row_entries_In in Hn as (Nz & Yn & An & Tn).
      split; [assumption|].
      exists rows, r, []. repeat split; [assumption|].
      rewrite last_parsed_year_snoc, Yn.
      pose proof (scrape_rows_year _ _ _ _ _ _ E1) as Y. simpl in Y.
      unfold next_year in *. destruct (parsed_year idx r); [reflexivity|].
      destruct (last_parsed_year idx rows); congruence.
Qed.

(** X10.  Where collected entries come from: the row loop only appends, and
    each entry it appends has the award name it was called with, as title
    the text of an [<i>] tag of some body row, and as year the most recent
    year parsed in the rows up to and including that row. *)
Theorem collected_entries_come_from_rows (year_col_index : nat)
    (award_name : string) (award_novels : list novel) (body : list row)
    (out : list novel) :
  scrape_rows year_col_index award_name award_novels body = Ok out ->
  exists new,
    out = (award_novels ++ new)%list /\
    forall n, In n new ->
      award n = award_name /\
      exists earlier r later,
        body = (earlier ++ r :: later)%list /\
        In (title n) (i_tags r) /\
        last_parsed_year year_col_index (earlier ++ [r]) = Some (year n).
Proof.
  unfold scrape_rows.
  rewrite (scrape_row_loop_acc year_col_index award_name body 0 award_novels).
  destruct (for_each (scrape_row year_col_index award_name) (0, []) body)
    as [[cy new]|e] eqn:E; simpl; [|discriminate].
  intros [= <-]. exists new. split; [reflexivity|].
  apply (scrape_row_loop_provenance _ _ _ _ E).
Qed.

(** X11.  Whatever [read] the file holds, after [scrape] every record under
    the key of a collected entry that passes the year filter has [read]
    false: the merged record is the collected one. *)
Theorem rescrape_takes_read_from_collected
    (after : Z) (hugo_resp nebula_resp : response)
    (hugo_data nebula_data existing_data : list novel) (e : novel) :
  scrape_award_novels hugo_resp "Hugo" = Ok hugo_data ->
  scrape_award_novels nebula_resp "Nebula" = Ok nebula_data ->
  In e (hugo_data ++ nebula_data) -> after <= year e ->
  exists r, In r (scrape_merge after hugo_data nebula_data existing_data) /\
            key_of r = key_of e /\ read r = VBool false.
Proof.
  intros Hh Hn He Hy.
  destruct (merge_loop_read (key_of e) (VBool false)
              (year_filter after (hugo_data ++ nebula_data)%list)
              (index_existing (year_filter after existing_data)))
    as (v & G & Rv).
  - apply List.Forall_forall. intros x Hx. apply year_filter_In in Hx as [Hx _].
    apply in_app_iff in Hx as [Hx|Hx].
    + pose proof (scrape_award_novels_fresh _ _ _ Hh) as F.
      rewrite List.Forall_forall in F. apply (F x Hx).
    + pose proof (scrape_award_novels_fresh _ _ _ Hn) as F.
      rewrite List.Forall_forall in F. apply (F x Hx).
  - left. apply year_filter_keys. exists e. auto.
  - fold (merged_map after hugo_data nebula_data existing_data) in G.
    pose proof (dict_get_key _ _ _ (merged_map_ok _ _ _ _) G) as K.
    exists v. repeat split; try assumption. apply scrape_merge_In. now rewrite K.
Qed.

End CollectorErrors.

Lemma scrape_table_skips_witness :
  @scrape_table ascii_builtins "Hugo" []
    (mkRow ["Year"; "Year awarded"; "Novel"] [] ::
     [mkRow [""; "2014"; "The Sword in the Stone"] ["The Sword in the Stone"]])
  = Ok [].
Proof.
  apply (@scrape_table_skips ascii_builtins "Hugo" []
           (mkRow ["Year"; "Year awarded"; "Novel"] [])
           [mkRow [""; "2014"; "The Sword in the Stone"] ["The Sword in the Stone"]]).
  left. vm_compute. reflexivity.
Defined.

Lemma collected_entries_come_from_rows_witness :
  exists new,
    [doomsday "Hugo" VNull (VBool false); fire_upon_the_deep] = ([] ++ new)%list /\
    forall n, In n new ->
      award n = "Hugo" /\
      exists earlier r later,
        [mkRow ["1993"; "Connie Willis*"; "Doomsday Book"; "Bantam Spectra"]
               ["Doomsday Book"];
         mkRow ["Vernor Vinge*"; "A Fire Upon the Deep"; "Tor Books"]
               ["A Fire Upon the Deep"]] = (earlier ++ r :: later)%list /\
        In (title n) (i_tags r) /\
        @last_parsed_year ascii_builtins 0 (earlier ++ [r]) = Some (year n).
Proof.
  apply (@collected_entries_come_from_rows ascii_builtins 0 "Hugo" []).
  vm_compute. reflexivity.
Defined.

Lemma rescrape_takes_read_from_collected_witness :
  exists r,
    In r (scrape_merge 1990
            [doomsday "Hugo" VNull (VBool false); fire_upon_the_deep]
            [doomsday "Nebula" VNull (VBool false)]
            [doomsday "Hugo" (VStr "third") (VBool true)]) /\
    key_of r = key_of (doomsday "Hugo" VNull (VBool false)) /\
    read r = VBool false.
Proof.
  apply (@rescrape_takes_read_from_collected ascii_builtins 1990
           hugo_page nebula_page
           [doomsday "Hugo" VNull (VBool false); fire_upon_the_deep]
           [doomsday "Nebula" VNull (VBool false)]
           [doomsday "Hugo" (VStr "third") (VBool true)]
           (doomsday "Hugo" VNull (VBool false))).
  - vm_compute. reflexivity.
  - vm_compute. reflexivity.
  - simpl. left. reflexivity.
  - simpl. lia.
Defined.

(** ** More on the annotator: when it writes, what it leaves alone, and the
    order it works in *)

Lemma next_unprocessed_none (l : list novel) :
  forall i,
    Forall (fun n => truthy (pov n) = true) l -> next_unprocessed i l = None.
Proof.
  induction l as [|x l IH]; intros i F; [reflexivity|].
  inversion F as [|? ? Tx F']; subst. simpl. rewrite Tx. simpl. now apply IH.
Qed.

Lemma next_unprocessed_first (l : list novel) :
  forall i0 j,
    next_unprocessed i0 l = Some j ->
    forall i m, (i < j - i0)%nat -> l !! i = Some m -> truthy (pov m) = true.
Proof.
  induction l as [|x l IH]; simpl; intros i0 j E i m Hi Hm; [discriminate|].
  destruct (truthy (pov x)) eqn:T; simpl in E.
  - destruct i as [|i]; simpl in Hm; [congruence|].
    apply (IH (S i0) j E i m); [lia|assumption].
  - injection E as <-. lia.
Qed.

Lemma next_unprocessed_some (l : list novel) :
  forall i0 j m,
    l !! j = Some m -> truthy (pov m) = false ->
    exists idx, next_unprocessed i0 l = Some idx /\ (idx - i0 <= j)%nat /\
                (i0 <= idx)%nat.
Proof.
  induction l as [|x l IH]; simpl; intros i0 j m Hm Tm; [discriminate|].
  destruct (truthy (pov x)) eqn:T; simpl.
  - destruct j as [|j]; simpl in Hm; [congruence|].
    destruct (IH (S i0) j m Hm Tm) as (idx & E & Hle & Hge).
    exists idx. repeat split; [assumption|lia..].
  - exists i0. repeat split; lia.
Qed.

Lemma assign_truthy (p : string) (is_read : bool) (n : novel) :
  In p ["first"; "second"; "third"] -> truthy (pov (assign p is_read n)) = true.
Proof. simpl. intros [<-|[<-|[<-|[]]]]; reflexivity. Qed.

Lemma strongly_sorted_lookup {A : Type} (R : A -> A -> Prop) (l : list A) :
  StronglySorted R l ->
  forall i j a b, (i < j)%nat -> l !! i = Some a -> l !! j = Some b -> R a b.
Proof.
  induction 1 as [|x l S IH F]; intros i j a b Hij Ha Hb; [discriminate|].
  destruct j as [|j]; [lia|]. simpl in Hb. destruct i as [|i]; simpl in Ha.
  - injection Ha as <-. apply (Forall_lookup_1 _ _ _ _ F Hb).
  - apply (IH i j); [lia|assumption..].
Qed.

Lemma sorted_year_desc (l : list novel) :
  year_desc (stable_sort year_desc_leb l).
Proof.
  assert (S : StronglySorted (fun a b => year b <= year a)
                (stable_sort year_desc_leb l)).
  { apply Sorted_StronglySorted; [intros a b c; lia|].
    apply stable_sort_Sorted; unfold year_desc_leb; intros x y E; lia. }
  intros i j a b. apply (strongly_sorted_lookup _ _ S).
Qed.

Lemma alter_assign_lookup (p : string) (is_read : bool) (idx i : nat)
    (l : list novel) (a : novel) :
  alter (assign p is_read) idx l !! i = Some a ->
  exists a0, l !! i = Some a0 /\ year a0 = year a /\
             (i <> idx -> a = a0) /\ (i = idx -> a = assign p is_read a0).
Proof.
  rewrite list_lookup_alter. destruct (decide (idx = i)) as [->|N].
  - destruct (l !! i) as [a0|]; simpl; [|discriminate].
    intros [= <-]. exists a0. repeat split; congruence.
  - intros E. exists a. repeat split; congruence.
Qed.

Lemma alter_assign_year_desc (p : string) (is_read : bool) (idx : nat)
    (l : list novel) :
  year_desc l -> year_desc (alter (assign p is_read) idx l).
Proof.
  intros D i j a b Hij Ha Hb.
  apply alter_assign_lookup in Ha as (a0 & Ha0 & <- & _).
  apply alter_assign_lookup in Hb as (b0 & Hb0 & <- & _).
  apply (D i j); assumption.
Qed.

Lemma announced_app (tr1 tr2 : list event) :
  announced (tr1 ++ tr2) = (announced tr1 ++ announced tr2)%list.
Proof.
  induction tr1 as [|[idx n|l] tr1 IH]; simpl; [reflexivity| |assumption].
  now rewrite IH.
Qed.

Lemma annotation_log_saved (l0 all_novels : list novel) (tr : list event) :
  annotation_log all_novels tr ->
  Forall2 annotated_from l0 all_novels ->
  forall l, In (Saved l) tr -> Forall2 annotated_from l0 l.
Proof.
  induction 1 as [cur|cur i m Hm Tm|cur i m p b rest Hm Tm Hp Hlog IH];
    intros R l Hin.
  - destruct Hin.
  - destruct Hin as [[=]|[]].
  - assert (R' : Forall2 annotated_from l0 (alter (assign p b) i cur)).
    { apply Forall2_alter_r; [assumption|].
      intros x y _ Hy (Ht & Ha & Hyr & Same). simpl.
      repeat split; try assumption.
      intros Tx. specialize (Same Tx). subst y. congruence. }
    destruct Hin as [[=]|[[= <-]|Hin]]; [assumption|].
    now apply IH.
Qed.

Section AnnotatorMore.
Context `{PyStr}.

(** X12.  With nothing to annotate (no file, an empty list, or every entry
    with a POV) [process] reads no reply, announces nothing and does not
    write the file. *)
Theorem process_with_nothing_to_annotate (inputs : list string) (f : file) :
  Forall (fun n => truthy (pov n) = true) (load_novels_from_json f) ->
  process inputs f = mkRun [] f (Ok tt).
Proof.
  intros F. unfold process. destruct (load_novels_from_json f) as [|x l]; [reflexivity|].
  rewrite next_unprocessed_none; [reflexivity|].
  eapply Permutation_Forall; [symmetry; apply stable_sort_perm|exact F].
Qed.



End AnnotatorMore.

Section AnnotatorOrder.
Context `{PyStr}.

(** X14.  Every list [process] writes is the loaded collection in
    year-descending order with the same titles, awards and years at the same
    places, and with every entry that already had a POV left exactly as it
    was. *)
Theorem process_writes_same_records (inputs : list string) (f : file)
    (l : list novel) :
  In (Saved l) (trace (process inputs f)) ->
  Forall2 annotated_from (stable_sort year_desc_leb (load_novels_from_json f)) l /\
  year_desc l.
Proof.
  intros Hl. destruct (process_run inputs f) as (tail & E & Log & _).
  rewrite E in Hl.
  assert (R : Forall2 annotated_from
                (stable_sort year_desc_leb (load_novels_from_json f)) l).
  { apply (annotation_log_saved _ _ _ Log); [|assumption].
    apply Forall_Forall2_diag, List.Forall_forall. intros x _.
    unfold annotated_from. auto. }
  split; [assumption|].
  intros i j a b Hij Ha Hb.
  destruct (Forall2_lookup_r _ _ _ _ _ R Ha) as (a0 & Ha0 & _ & _ & Ya & _).
  destruct (Forall2_lookup_r _ _ _ _ _ R Hb) as (b0 & Hb0 & _ & _ & Yb & _).
  rewrite Ya, Yb.
  apply (sorted_year_desc (load_novels_from_json f) i j a0 b0); assumption.
Qed.

Lemma prompt_loop_order (inputs : list string) :
  forall all_novels idx n f tr,
    year_desc all_novels ->
    next_unprocessed 0 all_novels = Some idx ->
    all_novels !! idx = Some n ->
    exists tail,
      trace (prompt_loop inputs all_novels idx f tr) = (tr ++ tail)%list /\
      StronglySorted later_entry ((idx, n) :: announced tail).
Proof.
  induction inputs as [|reply inputs IH]; intros cur idx n f tr D Nx Hn.
  - exists []. simpl. rewrite app_nil_r. split; [reflexivity|].
    repeat constructor.
  - rewrite prompt_loop_cons. cbv zeta.
    destruct (in_list (str_lower (str_strip reply)) ["quit"; "exit"]).
    { exists []. simpl. rewrite app_nil_r. split; [reflexivity|].
      repeat constructor. }
    destruct (pov_of_input (remove_r (str_lower (str_strip reply))))
      as [p|] eqn:P; [|now apply IH].
    apply pov_of_input_valid in P.
    set (is_read := contains "r" (str_lower (str_strip reply))).
    set (saved := alter (assign p is_read) idx cur).
    destruct (next_unprocessed 0 saved) as [idx'|] eqn:Nx'.
    + pose proof (next_unprocessed_found _ _ _ Nx') as (n' & _ & Hn' & Tn').
      rewrite Nat.sub_0_r in Hn'. rewrite Hn'.
      assert (Hidx : saved !! idx = Some (assign p is_read n)).
      { unfold saved. rewrite list_lookup_alter_eq, Hn. reflexivity. }
      assert (Lt : (idx < idx')%nat).
      { destruct (Nat.lt_trichotomy idx idx') as [L|[E|G]]; [assumption| |].
        - subst idx'. rewrite Hidx in Hn'. injection Hn' as <-.
          rewrite assign_truthy in Tn' by assumption. discriminate.
        - exfalso. apply alter_assign_lookup in Hn' as (a0 & Ha0 & _ & Same & _).
          rewrite (Same ltac:(lia)) in Tn'.
          rewrite (next_unprocessed_first _ _ _ Nx idx' a0) in Tn';
            [discriminate|lia|assumption]. }
      assert (Later : later_entry (idx, n) (idx', n')).
      { split; [assumption|]. simpl.
        apply (alter_assign_year_desc p is_read idx cur D idx idx'
                 (assign p is_read n) n' Lt Hidx Hn'). }
      destruct (IH saved idx' n' (save_novels_to_json saved)
                  ((tr ++ [Saved saved]) ++ [Processing idx' n'])%list
                  (alter_assign_year_desc p is_read idx cur D) Nx' Hn')
        as (tail & Etr & S).
      exists (Saved saved :: Processing idx' n' :: tail).
      split; [rewrite Etr; now rewrite <- !app_assoc|].
      simpl. constructor; [assumption|].
      constructor; [assumption|].
      apply StronglySorted_inv in S as [_ F].
      eapply List.Forall_impl; [|exact F].
      intros [j m] [L1 L2]. destruct Later as [L3 L4]. simpl in *.
      split; simpl; lia.
    + exists [Saved saved]. split; [reflexivity|]. repeat constructor.
Qed.

(** X15.  [process] works down the year-descending list: of any two
    entries it announces, the later one is further down the list and is not
    more recent; in particular no entry is announced twice. *)
Theorem process_announces_in_order (inputs : list string) (f : file) :
  StronglySorted later_entry (announced (trace (process inputs f))).
Proof.
  unfold process. destruct (load_novels_from_json f) as [|x l]; [constructor|].
  set (all_novels := stable_sort year_desc_leb (x :: l)).
  destruct (next_unprocessed 0 all_novels) as [idx|] eqn:Nx; [|constructor].
  pose proof (next_unprocessed_found _ _ _ Nx) as (n & _ & Hn & _).
  rewrite Nat.sub_0_r in Hn. rewrite Hn.
  destruct (prompt_loop_order inputs all_novels idx n f [Processing idx n]
              (sorted_year_desc (x :: l)) Nx Hn) as (tail & -> & S).
  exact S.
Qed.

(** X16.  Most recent first: when some entry of the file has no POV,
    [process] begins by announcing an entry without POV whose year is the
    greatest among the entries without POV. *)
Theorem process_starts_with_most_recent (inputs : list string) (f : file)
    (m : novel) :
  In m (load_novels_from_json f) -> truthy (pov m) = false ->
  exists idx n rest,
    trace (process inputs f) = Processing idx n :: rest /\
    In n (load_novels_from_json f) /\
    truthy (pov n) = false /\ year m <= year n.
Proof.
  intros Hm Tm. unfold process.
  destruct (load_novels_from_json f) as [|x l] eqn:L; [destruct Hm|].
  set (all_novels := stable_sort year_desc_leb (x :: l)).
  assert (Hm' : In m all_novels) by (now apply stable_sort_In).
  apply list_elem_of_In, list_elem_of_lookup_1 in Hm' as [j Hj].
  destruct (next_unprocessed_some all_novels 0 j m Hj Tm) as (idx & Nx & Hle & _).
  rewrite Nx.
  pose proof (next_unprocessed_found _ _ _ Nx) as (n & _ & Hn & Tn).
  rewrite Nat.sub_0_r in Hn, Hle. rewrite Hn.
  destruct (prompt_loop_order inputs all_novels idx n f [Processing idx n]
              (sorted_year_desc (x :: l)) Nx Hn) as (tail & -> & _).
  exists idx, n, tail. split; [reflexivity|].
  split.
  { apply (stable_sort_In year_desc_leb). apply list_elem_of_In.
    apply list_elem_of_lookup. eauto. }
  split; [assumption|].
  destruct (Nat.eq_dec idx j) as [->|Ne].
  - assert (n = m) by congruence. subst. lia.
  - apply (sorted_year_desc (x :: l) idx j n m); [lia|assumption..].
Qed.

End AnnotatorOrder.

Lemma process_with_nothing_to_annotate_witness :
  @process ascii_builtins ["1"; "2r"] (Some [dune]) = mkRun [] (Some [dune]) (Ok tt).
Proof.
  apply (@process_with_nothing_to_annotate ascii_builtins ["1"; "2r"] (Some [dune])).
  simpl. constructor; [reflexivity|constructor].
Defined.


Lemma process_writes_same_records_witness :
  Forall2 annotated_from
    (stable_sort year_desc_leb
       (load_novels_from_json (Some [dune; fire_upon_the_deep])))
    [set_read (set_pov fire_upon_the_deep (VStr "third")) (VBool true); dune] /\
  year_desc
    [set_read (set_pov fire_upon_the_deep (VStr "third")) (VBool true); dune].
Proof.
  apply (@process_writes_same_records ascii_builtins ["r3"]
           (Some [dune; fire_upon_the_deep])).
  vm_compute. right. left. reflexivity.
Defined.

Lemma process_starts_with_most_recent_witness :
  exists idx n rest,
    trace (@process ascii_builtins ["quit"]
             (Some [set_pov dune VNull; fire_upon_the_deep]))
      = Processing idx n :: rest /\
    In n (load_novels_from_json (Some [set_pov dune VNull; fire_upon_the_deep])) /\
    truthy (pov n) = false /\ year (set_pov dune VNull) <= year n.
Proof.
  apply (@process_starts_with_most_recent ascii_builtins ["quit"]
           (Some [set_pov dune VNull; fire_upon_the_deep]) (set_pov dune VNull)).
  - simpl. left. reflexivity.
  - reflexivity.
Defined.

(** ** The loop of [merge_award_entries] *)

Lemma merge_award_entry_set (d : dict) (n : novel) :
  exists v,
    merge_award_entry d n = dict_set (key_of n) v d /\
    match dict_get (key_of n) d with
    | None => v = n
    | Some existing =>
        title v = title existing /\ year v = year existing /\
        read v = read existing /\
        pov v = (if is_not_none (pov n) then pov n else pov existing)
    end.
Proof.
  unfold merge_award_entry. destruct (dict_get (key_of n) d) as [existing|].
  - eexists. split; [reflexivity|].
    destruct (is_not_none (pov n)),
      (negb (String.eqb (award existing) (award n))); simpl; auto.
  - exists n. auto.
Qed.

Lemma merge_award_entry_ok (d : dict) (n : novel) :
  dict_ok d -> dict_ok (merge_award_entry d n).
Proof.
  intros Hok. destruct (merge_award_entry_set d n) as (v & -> & M).
  apply dict_ok_set; [|assumption].
  destruct (dict_get (key_of n) d) as [existing|] eqn:G; [|now subst].
  destruct M as (Ht & Hy & _). apply (dict_get_key _ _ _ Hok) in G.
  rewrite <- G. unfold key_of. now rewrite Ht, Hy.
Qed.

Lemma merge_award_loop_ok (l : list novel) :
  dict_ok (fold_left merge_award_entry l []).
Proof.
  apply fold_left_inv; [apply dict_ok_nil|].
  intros d x Hd _. now apply merge_award_entry_ok.
Qed.

Lemma merge_award_loop_keys (k : key) (l : list novel) :
  forall d,
    dict_get k (fold_left merge_award_entry l d) <> None <->
    In k (map key_of l) \/ dict_get k d <> None.
Proof.
  induction l as [|x l IH]; simpl; intros d; [tauto|].
  destruct (merge_award_entry_set d x) as (v & -> & _).
  rewrite IH, dict_get_set_some. intuition congruence.
Qed.

Lemma merge_award_loop_values (l : list novel) :
  forall d,
    unique_keys l ->
    (forall x, In x l -> dict_get (key_of x) d = None) ->
    dict_values (fold_left merge_award_entry l d) = (dict_values d ++ l)%list.
Proof.
  unfold unique_keys.
  induction l as [|x l IH]; simpl; intros d U N.
  - now rewrite app_nil_r.
  - apply NoDup_cons in U as [Nx U].
    assert (E : merge_award_entry d x = (d ++ [(key_of x, x)])%list).
    { unfold merge_award_entry. rewrite N by auto. apply dict_set_absent. auto. }
    rewrite E, IH; [| assumption |].
    + unfold dict_values. rewrite map_app, <- app_assoc. reflexivity.
    + intros y Hy. rewrite <- E. unfold merge_award_entry. rewrite (N x) by auto.
      rewrite dict_get_set_other; [auto|].
      intros K. apply Nx. rewrite <- K. apply list_elem_of_In. now apply in_map.
Qed.



(** X18.  Given a list that already has one record per key, the loop of
    [merge_award_entries] changes no record: the values of [novel_map] are
    the records given, in the order given. *)
Theorem merge_award_map_keeps_unique_list (l : list novel) :
  unique_keys l -> dict_values (merge_award_map l) = l.
Proof.
  intros U. unfold merge_award_map.
  now rewrite merge_award_loop_values by auto.
Qed.

Lemma merge_award_loop_first (k : key) (rd : value) (l : list novel) :
  forall d v,
    dict_get k d = Some v -> read v = rd ->
    exists v',
      dict_get k (fold_left merge_award_entry l d) = Some v' /\
      read v' = rd /\
      (pov v' = VNull ->
       pov v = VNull /\ forall y, In y l -> key_of y = k -> pov y = VNull).
Proof.
  induction l as [|x l IH]; simpl; intros d v G Rv.
  - exists v. repeat split; try assumption. intros y [].
  - destruct (merge_award_entry_set d x) as (w & -> & M).
    destruct (key_eqb k (key_of x)) eqn:E.
    + apply key_eqb_eq in E. subst k. rewrite G in M.
      destruct M as (_ & _ & Rw & Pw).
      destruct (IH (dict_set (key_of x) w d) w (dict_get_set_same _ _ _)
                  (eq_trans Rw Rv)) as (v' & G' & R' & P').
      exists v'. repeat split; try assumption;
        destruct (P' H) as [Pw0 Rest]; rewrite Pw in Pw0;
        destruct (is_not_none (pov x)) eqn:Nx.
      * apply is_not_none_true in Nx. contradiction.
      * assumption.
      * intros y [<-|Hy] Ky; [|now apply Rest].
        apply is_not_none_true in Nx. contradiction.
      * intros y [<-|Hy] Ky; [now apply is_not_none_false|now apply Rest].
    + apply key_eqb_neq in E.
      destruct (IH (dict_set (key_of x) w d) v) as (v' & G' & R' & P');
        [now rewrite dict_get_set_other|assumption|].
      exists v'. repeat split; try assumption; destruct (P' H) as [Pv Rest];
        [assumption|].
      intros y [<-|Hy] Ky; [congruence|now apply Rest].
Qed.

(** X19.  The loop of [merge_award_entries] keeps, for each key, the first
    record given with it: when the loop ends the record of [novel_map] under
    the key has that record's [read], and its [pov] is null only if every
    record given with the key had a null [pov] (a POV, once seen, is not
    lost to a later null). *)
Theorem merge_award_map_keeps_first (l1 l2 : list novel) (x : novel) :
  (forall y, In y l1 -> key_of y <> key_of x) ->
  exists r,
    dict_get (key_of x) (merge_award_map (l1 ++ x :: l2)) = Some r /\
    key_of r = key_of x /\ read r = read x /\
    (pov r = VNull ->
     forall y, In y (x :: l2) -> key_of y = key_of x -> pov y = VNull).
Proof.
  intros N1. unfold merge_award_map. rewrite fold_left_app. simpl.
  set (d1 := fold_left merge_award_entry l1 []).
  assert (G1 : dict_get (key_of x) d1 = None).
  { destruct (dict_get (key_of x) d1) eqn:G; [|reflexivity].
    exfalso. assert (Some' : dict_get (key_of x) d1 <> None) by congruence.
    apply merge_award_loop_keys in Some' as [Hin|Hn]; [|now apply Hn].
    apply in_map_iff in Hin as (y & Ky & Hy). now apply (N1 y). }
  assert (E : merge_award_entry d1 x = dict_set (key_of x) x d1)
    by (unfold merge_award_entry; now rewrite G1).
  rewrite E.
  destruct (merge_award_loop_first (key_of x) (read x) l2
              (dict_set (key_of x) x d1) x (dict_get_set_same _ _ _) eq_refl)
    as (r & G & Rr & Pr).
  assert (Ok' : dict_ok (fold_left merge_award_entry l2 (dict_set (key_of x) x d1))).
  { rewrite <- E. change (dict_ok (fold_left merge_award_entry (x :: l2) d1)).
    unfold d1. rewrite <- fold_left_app. apply merge_award_loop_ok. }
  exists r. split; [assumption|].
  split; [now apply (dict_get_key _ _ _ Ok' G)|].
  split; [assumption|].
  intros Pn y [<-|Hy] Ky; [apply (proj1 (Pr Pn))|now apply (proj2 (Pr Pn))].
Qed.

Lemma merge_award_map_keeps_unique_list_witness :
  dict_values (merge_award_map [fire_upon_the_deep; dune]) =
  [fire_upon_the_deep; dune].
Proof.
  apply (merge_award_map_keeps_unique_list [fire_upon_the_deep; dune]).
  unfold unique_keys. simpl. apply NoDup_cons. split.
  - intros Hin. apply list_elem_of_singleton in Hin. discriminate.
  - apply NoDup_singleton.
Defined.

Lemma merge_award_map_keeps_first_witness :
  exists r,
    dict_get (key_of (doomsday "Hugo" (VStr "first") (VBool true)))
      (merge_award_map
         ([fire_upon_the_deep] ++
          doomsday "Hugo" (VStr "first") (VBool true) ::
          [doomsday "Nebula" VNull (VBool false)])) = Some r /\
    key_of r = key_of (doomsday "Hugo" (VStr "first") (VBool true)) /\
    read r = read (doomsday "Hugo" (VStr "first") (VBool true)) /\
    (pov r = VNull ->
     forall y,
       In y (doomsday "Hugo" (VStr "first") (VBool true) ::
             [doomsday "Nebula" VNull (VBool false)]) ->
       key_of y = key_of (doomsday "Hugo" (VStr "first") (VBool true)) ->
       pov y = VNull).
Proof.
  apply (merge_award_map_keeps_first [fire_upon_the_deep]
           [doomsday "Nebula" VNull (VBool false)]
           (doomsday "Hugo" (VStr "first") (VBool true))).
  intros y [<-|[]]. discriminate.
Defined.

(** ** The annotator and the invariants of the file *)

Lemma annotated_from_keys (l0 l : list novel) :
  Forall2 annotated_from l0 l -> map key_of l = map key_of l0.
Proof.
  induction 1 as [|b a l0 l (Ht & _ & Hy & _) F IH]; simpl; [reflexivity|].
  rewrite IH. unfold key_of. now rewrite Ht, Hy.
Qed.

Lemma next_unprocessed_none_inv (l : list novel) :
  forall i,
    next_unprocessed i l = None -> Forall (fun n => truthy (pov n) = true) l.
Proof.
  induction l as [|x l IH]; simpl; intros i E; [constructor|].
  destruct (truthy (pov x)) eqn:T; simpl in E; [|discriminate].
  constructor; [assumption|]. now apply (IH (S i)).
Qed.

Section AnnotatorInvariants.
Context `{PyStr}.

Lemma process_saved_from (inputs : list string) (f : file) (l : list novel) :
  In (Saved l) (trace (process inputs f)) ->
  Forall2 annotated_from (stable_sort year_desc_leb (load_novels_from_json f)) l.
Proof.
  intros Hl. destruct (process_run inputs f) as (tail & E & Log & _).
  rewrite E in Hl. apply (annotation_log_saved _ _ _ Log); [|assumption].
  apply Forall_Forall2_diag, List.Forall_forall. intros x _.
  unfold annotated_from. auto.
Qed.

(** X20.  The annotator keeps [(title, year)] unique: started on a file
    with one record per key, every list it writes, and the file it leaves,
    has one record per key. *)
Theorem process_keeps_unique_keys (inputs : list string) (f : file) :
  unique_keys (load_novels_from_json f) ->
  (forall l, In (Saved l) (trace (process inputs f)) -> unique_keys l) /\
  unique_keys (load_novels_from_json (disk (process inputs f))).
Proof.
  intros U.
  assert (Saved_ok : forall l, In (Saved l) (trace (process inputs f)) ->
                               unique_keys l).
  { intros l Hl. unfold unique_keys.
    rewrite (annotated_from_keys _ _ (process_saved_from inputs f l Hl)).
    apply (NoDup_Permutation_proper _ _
             (Permutation_map key_of (stable_sort_perm year_desc_leb _))).
    exact U. }
  split; [assumption|].
  destruct (process_run inputs f) as (tail & E & _ & D & _).
  rewrite D. rewrite E in Saved_ok.
  destruct (file_after_cases tail f) as [-> |(l & Hl & ->)]; [assumption|].
  simpl. now apply Saved_ok.
Qed.

Lemma prompt_loop_done (inputs : list string) :
  forall all_novels idx f tr,
    (forall u, In u inputs ->
               in_list (str_lower (str_strip u)) ["quit"; "exit"] = false) ->
    result (prompt_loop inputs all_novels idx f tr) = Ok tt ->
    Forall (fun n => truthy (pov n) = true)
      (load_novels_from_json (disk (prompt_loop inputs all_novels idx f tr))).
Proof.
  induction inputs as [|reply inputs IH]; intros cur idx f tr NoQuit.
  - simpl. discriminate.
  - rewrite prompt_loop_cons. cbv zeta.
    rewrite (NoQuit reply) by (now left).
    assert (NoQuit' : forall u, In u inputs ->
              in_list (str_lower (str_strip u)) ["quit"; "exit"] = false)
      by (intros u Hu; apply NoQuit; now right).
    destruct (pov_of_input (remove_r (str_lower (str_strip reply)))) as [p|];
      [|now apply IH].
    set (saved := alter (assign p (contains "r" (str_lower (str_strip reply))))
                    idx cur).
    destruct (next_unprocessed 0 saved) as [idx'|] eqn:Nx.
    + destruct (saved !! idx') as [n|]; [now apply IH|discriminate].
    + intros _. simpl. now apply (next_unprocessed_none_inv saved 0).
Qed.

(** X21.  When no reply is quit or exit and [process] still ends normally,
    the work is done: every entry of the file it leaves has a POV. *)
Theorem process_ends_when_all_annotated (inputs : list string) (f : file) :
  (forall u, In u inputs ->
             in_list (str_lower (str_strip u)) ["quit"; "exit"] = false) ->
  result (process inputs f) = Ok tt ->
  Forall (fun n => truthy (pov n) = true)
    (load_novels_from_json (disk (process inputs f))).
Proof.
  intros NoQuit. unfold process.
  destruct (load_novels_from_json f) as [|x l] eqn:L.
  { intros _. simpl. rewrite L. constructor. }
  destruct (next_unprocessed 0 (stable_sort year_desc_leb (x :: l)))
    as [idx|] eqn:Nx.
  - destruct (stable_sort year_desc_leb (x :: l) !! idx) as [n|];
      [now apply prompt_loop_done|discriminate].
  - intros _. simpl. rewrite L.
    eapply Permutation_Forall; [apply stable_sort_perm|].
    apply (next_unprocessed_none_inv _ 0 Nx).
Qed.

End AnnotatorInvariants.

Lemma process_keeps_unique_keys_witness :
  (forall l,
      In (Saved l)
        (trace (@process ascii_builtins ["2"] (Some [dune; fire_upon_the_deep]))) ->
      unique_keys l) /\
  unique_keys
    (load_novels_from_json
       (disk (@process ascii_builtins ["2"] (Some [dune; fire_upon_the_deep])))).
Proof.
  apply (@process_keeps_unique_keys ascii_builtins ["2"]
           (Some [dune; fire_upon_the_deep])).
  unfold unique_keys. simpl. apply NoDup_cons. split.
  - intros Hin. apply list_elem_of_singleton in Hin. discriminate.
  - apply NoDup_singleton.
Defined.

Lemma process_ends_when_all_annotated_witness :
  Forall (fun n => truthy (pov n) = true)
    (load_novels_from_json
       (disk (@process ascii_builtins ["x"; "2r"]
                (Some [dune; fire_upon_the_deep])))).
Proof.
  apply (@process_ends_when_all_annotated ascii_builtins ["x"; "2r"]
           (Some [dune; fire_upon_the_deep])).
  - intros u [<-|[<-|[]]]; vm_compute; reflexivity.
  - vm_compute. reflexivity.
Defined.

(** ** The annotator against the description of a run *)

Lemma file_after_last_saved (tr : list event) :
  forall f,
    file_after f tr = match last_saved tr with
                      | Some l => Some l
                      | None => f
                      end.
Proof.
  unfold file_after.
  induction tr as [|e tr IH]; intros f; simpl; [reflexivity|].
  rewrite IH. destruct (last_saved tr); [reflexivity|].
  now destruct e.
Qed.

Lemma pov_of_input_some (pov_input p : string) :
  pov_of_input pov_input = Some p ->
  (pov_input = "1" /\ p = "first") \/
  (pov_input = "2" /\ p = "second") \/
  (pov_input = "3" /\ p = "third").
Proof.
  unfold pov_of_input.
  destruct (String.eqb pov_input "1") eqn:E1;
    [apply String.eqb_eq in E1; intros [= <-]; auto|].
  destruct (String.eqb pov_input "2") eqn:E2;
    [apply String.eqb_eq in E2; intros [= <-]; auto|].
  destruct (String.eqb pov_input "3") eqn:E3;
    [apply String.eqb_eq in E3; intros [= <-]; auto|].
  discriminate.
Qed.

Lemma pov_of_input_none (pov_input : string) :
  pov_of_input pov_input = None ->
  pov_input <> "1" /\ pov_input <> "2" /\ pov_input <> "3".
Proof.
  unfold pov_of_input.
  destruct (String.eqb pov_input "1") eqn:E1; [discriminate|].
  destruct (String.eqb pov_input "2") eqn:E2; [discriminate|].
  destruct (String.eqb pov_input "3") eqn:E3; [discriminate|].
  intros _. now rewrite <- !String.eqb_neq.
Qed.

Lemma next_unprocessed_is_first (l : list novel) (idx : nat) :
  next_unprocessed 0 l = Some idx ->
  exists n, first_unannotated l idx n.
Proof.
  intros Nx. pose proof (next_unprocessed_found _ _ _ Nx) as (n & _ & Hn & Tn).
  rewrite Nat.sub_0_r in Hn. exists n. repeat split; try assumption.
  intros j m Hj Hm. apply (next_unprocessed_first _ _ _ Nx j m); [lia|assumption].
Qed.

Lemma alter_assign_annotated (p : string) (is_read : bool) (idx : nat)
    (l : list novel) (n : novel) :
  l !! idx = Some n ->
  annotated_at l (alter (assign p is_read) idx l) idx n p is_read.
Proof.
  intros Hn. split; [apply length_alter|].
  split; [intros j Hj; now apply list_lookup_alter_ne|].
  exists (assign p is_read n).
  rewrite list_lookup_alter_eq, Hn. simpl. auto 10.
Qed.

Section AnnotatorRun.
Context `{PyStr}.

Lemma in_list_quit (reply : string) :
  in_list (str_lower (str_strip reply)) ["quit"; "exit"] = true <-> is_quit reply.
Proof.
  unfold in_list, is_quit, normalized. simpl.
  rewrite !orb_true_iff, !String.eqb_eq. intuition discriminate.
Qed.

Lemma in_list_not_quit (reply : string) :
  in_list (str_lower (str_strip reply)) ["quit"; "exit"] = false -> ~ is_quit reply.
Proof. intros E Q. apply in_list_quit in Q. congruence. Qed.

Lemma annotation_run_skip (all_novels : list novel) (reply : string)
    (replies : list string) (idx : nat) (n : novel) (tail : list event) :
  rejected reply ->
  annotation_run all_novels replies (Processing idx n :: tail) ->
  annotation_run all_novels (reply :: replies) (Processing idx n :: tail).
Proof.
  intros Rj Run.
  inversion Run
    as [| ? ? ? ? First Stop
        | ? skipped u rest ? ? p is_read written ? First Fs Ch An Rest];
    subst.
  - apply run_stopped; [assumption|].
    destruct Stop as (skipped & rest & -> & Fs & Stop).
    exists (reply :: skipped), rest. repeat split; [now constructor|assumption].
  - apply (run_annotated all_novels (reply :: skipped) u rest idx n p is_read
             written); try assumption.
    now constructor.
Qed.

Lemma prompt_loop_steps (inputs : list string) :
  forall all_novels idx n f tr,
    first_unannotated all_novels idx n ->
    exists tail,
      trace (prompt_loop inputs all_novels idx f tr) = (tr ++ tail)%list /\
      annotation_run all_novels inputs (Processing idx n :: tail).
Proof.
  induction inputs as [|reply inputs IH]; intros cur idx n f tr First.
  - exists []. simpl. rewrite app_nil_r. split; [reflexivity|].
    apply run_stopped; [assumption|]. exists [], []. auto.
  - rewrite prompt_loop_cons. cbv zeta.
    destruct (in_list (str_lower (str_strip reply)) ["quit"; "exit"]) eqn:Q.
    { exists []. simpl. rewrite app_nil_r. split; [reflexivity|].
      apply run_stopped; [assumption|].
      exists [], (reply :: inputs). repeat split; [constructor|].
      right. exists reply, inputs. split; [reflexivity|]. now apply in_list_quit. }
    apply in_list_not_quit in Q.
    destruct (pov_of_input (remove_r (str_lower (str_strip reply))))
      as [p|] eqn:P.
    + apply pov_of_input_some in P.
      set (is_read := contains "r" (str_lower (str_strip reply))).
      set (saved := alter (assign p is_read) idx cur).
      assert (Ch : chooses reply p is_read) by (repeat split; assumption).
      assert (An : annotated_at cur saved idx n p is_read)
        by (apply alter_assign_annotated, First).
      destruct (next_unprocessed 0 saved) as [idx'|] eqn:Nx.
      * destruct (next_unprocessed_is_first _ _ Nx) as (n' & First').
        rewrite (proj1 First').
        destruct (IH saved idx' n' (save_novels_to_json saved)
                    ((tr ++ [Saved saved]) ++ [Processing idx' n'])%list First')
          as (tail & Etr & Run).
        exists (Saved saved :: Processing idx' n' :: tail).
        split; [rewrite Etr; now rewrite <- !app_assoc|].
        apply (run_annotated cur [] reply inputs idx n p is_read saved);
          try assumption. constructor.
      * exists [Saved saved]. split; [reflexivity|].
        apply (run_annotated cur [] reply inputs idx n p is_read saved);
          try assumption; [constructor|].
        apply run_nothing. apply (next_unprocessed_none_inv _ 0 Nx).
    + apply pov_of_input_none in P.
      destruct (IH cur idx n f tr First) as (tail & Etr & Run).
      exists tail. split; [assumption|].
      apply annotation_run_skip; [|assumption]. now split.
Qed.

Lemma prompt_loop_extends (inputs : list string) :
  forall all_novels idx f tr,
    exists tail, trace (prompt_loop inputs all_novels idx f tr) = (tr ++ tail)%list.
Proof.
  induction inputs as [|reply inputs IH]; intros cur idx f tr.
  - exists []. simpl. now rewrite app_nil_r.
  - rewrite prompt_loop_cons. cbv zeta.
    destruct (in_list (str_lower (str_strip reply)) ["quit"; "exit"]);
      [exists []; simpl; now rewrite app_nil_r|].
    destruct (pov_of_input (remove_r (str_lower (str_strip reply)))) as [p|];
      [|apply IH].
    set (saved := alter (assign p (contains "r" (str_lower (str_strip reply))))
                    idx cur).
    destruct (next_unprocessed 0 saved) as [idx'|];
      [|exists [Saved saved]; reflexivity].
    destruct (saved !! idx') as [n'|]; [|exists [Saved saved]; reflexivity].
    destruct (IH saved idx' (save_novels_to_json saved)
                ((tr ++ [Saved saved]) ++ [Processing idx' n'])%list)
      as (tail & ->).
    exists (Saved saved :: Processing idx' n' :: tail). now rewrite <- !app_assoc.
Qed.

Lemma prompt_loop_prefix (replies1 replies2 : list string) :
  forall all_novels idx f tr,
    exists more,
      trace (prompt_loop (replies1 ++ replies2) all_novels idx f tr) =
      (trace (prompt_loop replies1 all_novels idx f tr) ++ more)%list.
Proof.
  induction replies1 as [|reply replies1 IH]; intros cur idx f tr.
  - simpl. apply prompt_loop_extends.
  - change ((reply :: replies1) ++ replies2)%list
      with (reply :: (replies1 ++ replies2))%list.
    rewrite !prompt_loop_cons. cbv zeta.
    destruct (in_list (str_lower (str_strip reply)) ["quit"; "exit"]);
      [exists []; simpl; now rewrite app_nil_r|].
    destruct (pov_of_input (remove_r (str_lower (str_strip reply)))) as [p|];
      [|apply IH].
    set (saved := alter (assign p (contains "r" (str_lower (str_strip reply))))
                    idx cur).
    destruct (next_unprocessed 0 saved) as [idx'|];
      [|exists []; simpl; now rewrite app_nil_r].
    destruct (saved !! idx') as [n'|]; [apply IH|].
    exists []. simpl. now rewrite app_nil_r.
Qed.

Lemma process_prefix (replies1 replies2 : list string) (f : file) :
  exists more,
    trace (process (replies1 ++ replies2) f) =
    (trace (process replies1 f) ++ more)%list.
Proof.
  unfold process. destruct (load_novels_from_json f) as [|x l];
    [exists []; reflexivity|].
  destruct (next_unprocessed 0 (stable_sort year_desc_leb (x :: l))) as [idx|];
    [|exists []; reflexivity].
  destruct (stable_sort year_desc_leb (x :: l) !! idx) as [n|];
    [apply prompt_loop_prefix|exists []; reflexivity].
Qed.

Lemma process_steps (inputs : list string) (f : file) :
  annotation_run (stable_sort year_desc_leb (load_novels_from_json f)) inputs
    (trace (process inputs f)).
Proof.
  unfold process. destruct (load_novels_from_json f) as [|x l].
  { apply run_nothing. constructor. }
  set (all_novels := stable_sort year_desc_leb (x :: l)).
  destruct (next_unprocessed 0 all_novels) as [idx|] eqn:Nx.
  - destruct (next_unprocessed_is_first _ _ Nx) as (n & First).
    rewrite (proj1 First).
    destruct (prompt_loop_steps inputs all_novels idx n f [Processing idx n] First)
      as (tail & -> & Run).
    exact Run.
  - apply run_nothing. apply (next_unprocessed_none_inv _ 0 Nx).
Qed.

(** C9.  The annotator walks only unannotated entries and persists after
    each entry.  A run of [process] over the replies it is given is exactly
    this: the entry it announces is the first of the year-descending
    collection with no (truthy) POV; the first reply that is not rejected
    selects a POV and a read flag; the very next event is the write of the
    entire collection in which that entry, and no other, has been given
    them; only after the write is the next entry announced, taken from the
    collection written.  The file holds the last list written, at the end
    of the run and, since the run over any first part of the replies is the
    beginning of the run over all of them, after each entry.  In a
    well-typed file every entry announced has a null POV. *)
Theorem annotator_walks_unannotated_and_saves (inputs : list string) (f : file) :
  annotation_run (stable_sort year_desc_leb (load_novels_from_json f)) inputs
    (trace (process inputs f)) /\
  disk (process inputs f) =
    match last_saved (trace (process inputs f)) with
    | Some written => Some written
    | None => f
    end /\
  (forall replies1 replies2,
      inputs = (replies1 ++ replies2)%list ->
      exists more,
        trace (process inputs f) = (trace (process replies1 f) ++ more)%list) /\
  (Forall well_typed (load_novels_from_json f) ->
   forall idx n, In (Processing idx n) (trace (process inputs f)) ->
                 pov n = VNull).
Proof.
  split; [apply process_steps|].
  destruct (process_run inputs f) as (tail & E & Log & Edisk & _).
  split; [rewrite Edisk, E; apply file_after_last_saved|].
  split; [intros r1 r2 ->; apply process_prefix|].
  intros Wl. rewrite E. apply (annotation_log_prompted _ _ Log).
  eapply Permutation_Forall; [symmetry; apply stable_sort_perm|exact Wl].
Qed.

End AnnotatorRun.

(** The description of a run tells runs apart: a write that leaves the
    announced entry as it was, or that gives it another POV than the reply
    selects, is not a run. *)
Example unchanged_write_is_no_run :
  ~ @annotation_run ascii_builtins [fire_upon_the_deep] ["3"]
      [Processing 0 fire_upon_the_deep; Saved [fire_upon_the_deep]].
Proof.
  intros Run. inversion Run; subst.
  match goal with
  | A : annotated_at _ _ _ _ _ _ |- _ =>
      destruct A as (_ & _ & n' & Hn' & _ & _ & _ & Hp & _)
  end.
  simpl in Hn'. injection Hn' as <-. discriminate.
Qed.

Example wrong_pov_is_no_run :
  ~ @annotation_run ascii_builtins [fire_upon_the_deep] ["1"]
      [Processing 0 fire_upon_the_deep;
       Saved [set_read (set_pov fire_upon_the_deep (VStr "third")) (VBool false)]].
Proof.
  intros Run.
  inversion Run
    as [| |? skipped u rest ? ? p b written ? First Fs Ch An Rest E1 E2 E3];
    subst.
  destruct skipped as [|s0 [|s1 sk]]; simplify_eq/=.
  destruct An as (_ & _ & n' & Hn' & _ & _ & _ & Hp & _).
  simplify_eq/=.
  destruct Ch as (_ & [[C ?]|[[C ?]|[C ?]]] & _); vm_compute in C; simplify_eq.
Qed.

Lemma annotator_walks_unannotated_and_saves_witness :
  @annotation_run ascii_builtins
    (stable_sort year_desc_leb
       (load_novels_from_json
          (Some [fire_upon_the_deep; doomsday "Hugo" VNull (VBool false)])))
    ["3r"; "x"; "1"]
    (trace (@process ascii_builtins ["3r"; "x"; "1"]
              (Some [fire_upon_the_deep; doomsday "Hugo" VNull (VBool false)]))) /\
  disk (@process ascii_builtins ["3r"; "x"; "1"]
          (Some [fire_upon_the_deep; doomsday "Hugo" VNull (VBool false)])) =
    match last_saved
            (trace (@process ascii_builtins ["3r"; "x"; "1"]
                      (Some [fire_upon_the_deep;
                             doomsday "Hugo" VNull (VBool false)]))) with
    | Some written => Some written
    | None => Some [fire_upon_the_deep; doomsday "Hugo" VNull (VBool false)]
    end /\
  (exists more,
      trace (@process ascii_builtins ["3r"; "x"; "1"]
               (Some [fire_upon_the_deep; doomsday "Hugo" VNull (VBool false)])) =
      (trace (@process ascii_builtins ["3r"]
                (Some [fire_upon_the_deep; doomsday "Hugo" VNull (VBool false)]))
         ++ more)%list) /\
  (forall idx n,
      In (Processing idx n)
        (trace (@process ascii_builtins ["3r"; "x"; "1"]
                  (Some [fire_upon_the_deep;
                         doomsday "Hugo" VNull (VBool false)]))) ->
      pov n = VNull).
Proof.
  destruct (@annotator_walks_unannotated_and_saves ascii_builtins
              ["3r"; "x"; "1"]
              (Some [fire_upon_the_deep; doomsday "Hugo" VNull (VBool false)]))
    as (Run & Disk & Prefix & Prompted).
  split; [exact Run|]. split; [exact Disk|].
  split; [apply (Prefix ["3r"] ["x"; "1"]); reflexivity|].
  apply Prompted. simpl.
  constructor; [apply well_typed_fire_upon_the_deep|].
  constructor; [apply well_typed_doomsday|constructor].
Defined.
